(** * FAA daily bulletin: a shallow embedding of [build_site.py]

    The program fetches the FAA airport-status XML feed, turns it with
    [xmltodict] into nested mappings and sequences, extracts one event
    record per affected airport, removes duplicates, sorts, and renders a
    static HTML page.

    Modelling choices, in the order of the file:
    - text is [string]; one [ascii] is one character, and the character
      classes of [re] and [str.strip] ([\w], [\s], [\d], case folding) are
      the ones of the ASCII range;
    - the values [xmltodict.parse] builds are the tagged union [pyval]
      ([None], [str], [dict] in insertion order, [list]);
    - Python exceptions are the [Raise] branch of [result];
    - the network, the XML parser, the clock and the formatting of a
      timestamp are the parameters of the section [program]. *)

From Stdlib Require Import ZArith String Ascii List Lia Bool Sorted.
From stdpp Require Import base option list strings pretty sorting gmap.

Local Open Scope string_scope.
Local Open Scope list_scope.

(** ** Python values *)

(** What [xmltodict.parse] returns: an element without content is [None],
    text is a [str], an element with children or attributes is a [dict]
    (keys in document order) and a repeated element is a [list]. *)
#[local] Unset Elimination Schemes.
Inductive pyval : Type :=
| PNone
| PStr (s : string)
| PDict (items : list (string * pyval))
| PList (elems : list pyval).
#[local] Set Elimination Schemes.

(** Induction over [pyval] that also goes through the items of a mapping and
    the elements of a sequence. *)
Section pyval_induction.
Variable P : pyval → Prop.
Hypothesis HNone : P PNone.
Hypothesis HStr : ∀ s, P (PStr s).
Hypothesis HDict : ∀ items, Forall (λ kv, P kv.2) items → P (PDict items).
Hypothesis HList : ∀ elems, Forall P elems → P (PList elems).

Fixpoint pyval_nested_ind (v : pyval) : P v :=
  match v with
  | PNone => HNone
  | PStr s => HStr s
  | PDict items =>
      HDict items
        ((fix go (l : list (string * pyval)) : Forall (λ kv, P kv.2) l :=
            match l with
            | [] => @List.Forall_nil _ _
            | kv :: l' => @List.Forall_cons _ _ kv l' (pyval_nested_ind kv.2) (go l')
            end) items)
  | PList elems =>
      HList elems
        ((fix go (l : list pyval) : Forall P l :=
            match l with
            | [] => @List.Forall_nil _ _
            | x :: l' => @List.Forall_cons _ _ x l' (pyval_nested_ind x) (go l')
            end) elems)
  end.
End pyval_induction.

(** Truth value of a Python object: [None], the empty string, the empty
    mapping and the empty sequence are false. *)
Definition truthy (v : pyval) : bool :=
  match v with
  | PNone => false
  | PStr s => negb (String.eqb s "")
  | PDict items => negb (bool_decide (items = []))
  | PList elems => negb (bool_decide (elems = []))
  end.

(** [x or y]. *)
Definition py_or (x y : pyval) : pyval := if truthy x then x else y.

(** [d.get(k)] on the items of a mapping: [None] when the key is missing. *)
Fixpoint dict_get (items : list (string * pyval)) (k : string) : pyval :=
  match items with
  | [] => PNone
  | (k', v) :: rest => if String.eqb k' k then v else dict_get rest k
  end.

(** ** Tree extractor *)

(** [find_all_key(obj, key_name)]: in a mapping, each item in turn adds its
    value when the key matches and then everything found inside the value;
    in a sequence, each element in turn adds what is found inside it;
    anything else adds nothing. *)
Fixpoint find_all_key (obj : pyval) (key_name : string) : list pyval :=
  match obj with
  | PDict items =>
      flat_map (λ kv, (if String.eqb kv.1 key_name then [kv.2] else [])
                        ++ find_all_key kv.2 key_name) items
  | PList elems => flat_map (λ v, find_all_key v key_name) elems
  | _ => []
  end.

(** [ensure_list(x)]. *)
Definition ensure_list (x : pyval) : list pyval :=
  match x with
  | PNone => []
  | PList elems => elems
  | _ => [x]
  end.

(** The traversal the specification describes, written on its own: every
    (key, value) item of every mapping at any depth, an item before the
    items inside its value, the items of a mapping in their order and the
    elements of a sequence by index. *)
Fixpoint preorder_items (obj : pyval) : list (string * pyval) :=
  match obj with
  | PDict items => flat_map (λ kv, kv :: preorder_items kv.2) items
  | PList elems => flat_map preorder_items elems
  | _ => []
  end.

(** [stored_under k v obj]: somewhere in [obj], at any depth, a mapping
    holds [v] under the key [k]. *)
Inductive stored_under (k : string) (v : pyval) : pyval → Prop :=
| stored_here items : (k, v) ∈ items → stored_under k v (PDict items)
| stored_in_value k' child items :
    (k', child) ∈ items → stored_under k v child → stored_under k v (PDict items)
| stored_in_element child elems :
    child ∈ elems → stored_under k v child → stored_under k v (PList elems).

(** The item a path leads to. A path is a list of positions: each one
    selects an item of a mapping (and goes on in its value) or an element
    of a sequence; the last one has to select an item of a mapping. *)
Fixpoint item_at (obj : pyval) (path : list nat) : option (string * pyval) :=
  match path with
  | [] => None
  | i :: rest =>
      match obj with
      | PDict items =>
          match items !! i with
          | Some kv => match rest with
                       | [] => Some kv
                       | _ => item_at kv.2 rest
                       end
          | None => None
          end
      | PList elems =>
          match elems !! i with
          | Some v => item_at v rest
          | None => None
          end
      | _ => None
      end
  end.

(** Document order of paths: an item comes before everything inside its
    value, and an earlier position before a later one. *)
Fixpoint path_before (p q : list nat) : bool :=
  match p, q with
  | [], [] => false
  | [], _ :: _ => true
  | _ :: _, [] => false
  | i :: p', j :: q' => (i <? j)%nat || ((i =? j)%nat && path_before p' q')
  end.

(** The paths met in a list of children from position [i] on: the child
    itself where [hit] says so, then the paths [inside] it. *)
Section paths_from.
Context {A : Type} (hit : A → bool) (inside : A → list (list nat)).

Fixpoint paths_from (i : nat) (l : list A) : list (list nat) :=
  match l with
  | [] => []
  | x :: l' =>
      (if hit x then [[i]] else []) ++ map (cons i) (inside x) ++ paths_from (S i) l'
  end.
End paths_from.

(** The paths of the items with the key [k], as the traversal meets
    them. *)
Fixpoint key_paths (obj : pyval) (k : string) : list (list nat) :=
  match obj with
  | PDict items =>
      paths_from (λ kv, String.eqb kv.1 k) (λ kv, key_paths kv.2 k) 0 items
  | PList elems => paths_from (λ _, false) (λ v, key_paths v k) 0 elems
  | _ => []
  end.

(** [p] comes before [q] in document order. *)
Definition before (p q : list nat) : Prop := path_before p q = true.

(** [None] or a string: neither a mapping nor a sequence. *)
Definition is_scalar (v : pyval) : bool :=
  match v with PNone | PStr _ => true | _ => false end.

(** ** Exceptions *)

(** The exceptions the program can meet; all of them are subclasses of
    Python's [Exception], which is what its two [except] clauses catch.
    [OSError] stands for its subclasses too ([FileExistsError],
    [IsADirectoryError], [PermissionError]). *)
Inductive exn : Type :=
| TypeError (msg : string)
| ExpatError (msg : string)
| RequestException (msg : string)
| HTTPError (msg : string)
| OSError (msg : string).

Inductive result (A : Type) : Type :=
| Ok (a : A)
| Raise (e : exn).
Arguments Ok {A} a.
Arguments Raise {A} e.

(** Sequencing: an exception of the first step ends the run of the rest.
    stdpp's [x ← m; k] is [mbind (λ x, k) m]. *)
#[global] Instance result_bind : MBind result := λ A B f m,
  match m with
  | Ok a => f a
  | Raise e => Raise e
  end.
#[global] Instance result_ret : MRet result := λ A a, Ok a.

(** [try: body except Exception as e: handler(e)]. *)
Definition try_except {A} (body : result A) (handler : exn → result A) : result A :=
  match body with
  | Ok a => Ok a
  | Raise e => handler e
  end.

(** A [for] loop whose body may raise and that appends to a list. *)
Fixpoint for_each {A B} (f : A → result (list B)) (l : list A) : result (list B) :=
  match l with
  | [] => Ok []
  | x :: rest => ys ← f x; zs ← for_each f rest; Ok (ys ++ zs)
  end.

(** ** Characters and strings *)

Definition code (c : ascii) : nat := nat_of_ascii c.

Definition in_range (lo hi : nat) (c : ascii) : bool :=
  (lo <=? code c)%nat && (code c <=? hi)%nat.

(** [\d], and the letters, of the ASCII range. *)
Definition is_digit (c : ascii) : bool := in_range 48 57 c.
Definition is_upper (c : ascii) : bool := in_range 65 90 c.
Definition is_lower (c : ascii) : bool := in_range 97 122 c.

(** [\w]: a letter, a digit or the underscore. *)
Definition is_word (c : ascii) : bool :=
  is_digit c || is_upper c || is_lower c || (code c =? 95)%nat.

(** [\s] and [str.isspace]: tab, line feed, vertical tab, form feed,
    carriage return, the four separators 28..31 and the space. *)
Definition is_space (c : ascii) : bool :=
  in_range 9 13 c || in_range 28 31 c || (code c =? 32)%nat.

Definition to_lower (c : ascii) : ascii :=
  if is_upper c then ascii_of_nat (code c + 32) else c.

(** The double quote character, and the one-character string of it. *)
Definition dquote : ascii := ascii_of_nat 34.
Definition dq : string := String dquote "".

Fixpoint lstrip (p : ascii → bool) (s : string) : string :=
  match s with
  | "" => ""
  | String c t => if p c then lstrip p t else s
  end.

Fixpoint rstrip (p : ascii → bool) (s : string) : string :=
  match s with
  | "" => ""
  | String c t =>
      let t' := rstrip p t in
      if String.eqb t' "" && p c then "" else String c t'
  end.

(** [s.strip()] strips white space; [s.strip(chars)] strips the characters
    of [chars]. *)
Definition strip_with (p : ascii → bool) (s : string) : string := rstrip p (lstrip p s).
Definition strip (s : string) : string := strip_with is_space s.

Fixpoint char_in (chars : string) (c : ascii) : bool :=
  match chars with
  | "" => false
  | String x t => Ascii.eqb x c || char_in t c
  end.

Definition strip_chars (chars : string) (s : string) : string :=
  strip_with (char_in chars) s.

(** [s.startswith(p)] and [s.endswith(p)]. *)
Definition startswith (s p : string) : bool := String.prefix p s.
Definition endswith (s p : string) : bool :=
  String.prefix (String.rev p) (String.rev s).

(** ** Regular expressions

    The patterns of the program use literals, character classes, [\b],
    concatenation, alternation, [?], [*] and [+].  [ends ic r cur] lists,
    in the order in which a backtracking matcher tries them, the places
    where a match of [r] that starts at [cur] can end; the match [re] finds
    is the first one. A cursor is the character before the position (for
    [\b]) and the text from the position on. *)

Inductive regex : Type :=
| Eps
| Chr (c : ascii)
| Cls (p : ascii → bool)
| Bnd
| Cat (r1 r2 : regex)
| Alt (r1 r2 : regex)
| Opt (r : regex)
| Star (r : regex).

Definition Plus (r : regex) : regex := Cat r (Star r).

Fixpoint Lit (s : string) : regex :=
  match s with
  | "" => Eps
  | String c t => Cat (Chr c) (Lit t)
  end.

Definition cursor : Type := option ascii * string.

(** A literal character under [re.IGNORECASE] ([ic]) or without it. *)
Definition chr_matches (ic : bool) (c x : ascii) : bool :=
  if ic then Ascii.eqb (to_lower c) (to_lower x) else Ascii.eqb c x.

Definition word_before (cur : cursor) : bool :=
  match cur.1 with Some c => is_word c | None => false end.
Definition word_after (cur : cursor) : bool :=
  match cur.2 with String c _ => is_word c | "" => false end.

(** Greedy repetition: one more round of [step] first (it has to consume
    something), then stopping here. The rounds are bounded by [fuel], the
    length of the text that is left. *)
Fixpoint star_ends (step : cursor → list cursor) (fuel : nat) (cur : cursor) : list cursor :=
  match fuel with
  | O => [cur]
  | S n =>
      flat_map (λ cur', if (String.length cur'.2 <? String.length cur.2)%nat
                        then star_ends step n cur' else [])
               (step cur)
      ++ [cur]
  end.

Fixpoint ends (ic : bool) (r : regex) (cur : cursor) : list cursor :=
  match r with
  | Eps => [cur]
  | Chr c =>
      match cur.2 with
      | String x t => if chr_matches ic c x then [(Some x, t)] else []
      | "" => []
      end
  | Cls p =>
      match cur.2 with
      | String x t => if p x then [(Some x, t)] else []
      | "" => []
      end
  | Bnd => if xorb (word_before cur) (word_after cur) then [cur] else []
  | Cat r1 r2 => flat_map (ends ic r2) (ends ic r1 cur)
  | Alt r1 r2 => ends ic r1 cur ++ ends ic r2 cur
  | Opt r1 => ends ic r1 cur ++ [cur]
  | Star r1 => star_ends (ends ic r1) (String.length cur.2) cur
  end.

(** [re.sub(r, repl, s)]: scan from the left; where [r] matches, write
    [repl] and go on after the match ([skip] counts the characters of the
    match still to pass); elsewhere copy the character. *)
Fixpoint sub_scan (ic : bool) (r : regex) (repl : string)
    (skip : nat) (prev : option ascii) (s : string) : string :=
  match skip with
  | S k =>
      match s with
      | String c t => sub_scan ic r repl k (Some c) t
      | "" => ""
      end
  | O =>
      match ends ic r (prev, s) with
      | [] =>
          match s with
          | String c t => String c (sub_scan ic r repl 0 (Some c) t)
          | "" => ""
          end
      | (_, s') :: _ =>
          repl ++
          match (String.length s - String.length s')%nat with
          | O =>
              match s with
              | String c t => String c (sub_scan ic r repl 0 (Some c) t)
              | "" => ""
              end
          | S k =>
              match s with
              | String c t => sub_scan ic r repl k (Some c) t
              | "" => ""
              end
          end
      end
  end.

Definition re_sub (ic : bool) (r : regex) (repl s : string) : string :=
  sub_scan ic r repl 0 None s.

(** [re.search(r, s)]: the text of the leftmost match, if any. *)
Fixpoint search_scan (ic : bool) (r : regex) (prev : option ascii) (s : string) : option string :=
  match ends ic r (prev, s) with
  | (_, s') :: _ => Some (String.substring 0 (String.length s - String.length s') s)
  | [] =>
      match s with
      | String c t => search_scan ic r (Some c) t
      | "" => None
      end
  end.

Definition re_search (ic : bool) (r : regex) (s : string) : option string :=
  search_scan ic r None s.

(** ** [str()] and [repr()] *)

Definition hex_digit (n : nat) : ascii :=
  if (n <? 10)%nat then ascii_of_nat (48 + n) else ascii_of_nat (87 + n).

(** One character inside the quotes [q] of a string's [repr]. *)
Definition repr_char (q c : ascii) : string :=
  if Ascii.eqb c q || (code c =? 92)%nat then String "\" (String c "")
  else if (code c =? 9)%nat then "\t"
  else if (code c =? 10)%nat then "\n"
  else if (code c =? 13)%nat then "\r"
  else if (code c <? 32)%nat || (code c =? 127)%nat
       then String "\" (String "x" (String (hex_digit (code c / 16))
                                      (String (hex_digit (code c mod 16)) "")))
  else String c "".

Fixpoint repr_chars (q : ascii) (s : string) : string :=
  match s with
  | "" => ""
  | String c t => repr_char q c ++ repr_chars q t
  end.

(** [repr] of a [str]: single quotes, unless the text has a single quote
    and no double quote. *)
Definition repr_str (s : string) : string :=
  let q := if char_in s "'" && negb (char_in s dquote) then dquote else "'"%char in
  String q (repr_chars q s ++ String q "").

Fixpoint py_repr (v : pyval) : string :=
  match v with
  | PNone => "None"
  | PStr s => repr_str s
  | PDict items =>
      "{" ++ String.concat ", "
               (map (λ kv, repr_str kv.1 +:+ ": " +:+ py_repr kv.2) items) ++ "}"
  | PList elems => "[" ++ String.concat ", " (map py_repr elems) ++ "]"
  end.

(** [str(v)]: a string is itself, anything else is printed by [repr]. *)
Definition py_str (v : pyval) : string :=
  match v with
  | PStr s => s
  | _ => py_repr v
  end.

(** [int(text)] for a run of decimal digits. *)
Definition digit_value (c : ascii) : Z := Z.of_nat (code c - 48).
Definition int_of_digits (s : string) : Z :=
  fold_left (λ acc c, 10 * acc + digit_value c)%Z (list_ascii_of_string s) 0%Z.

(** [to_int_safe(s)]: the first run of digits of [str(s)], as a number. *)
Definition to_int_safe (s : pyval) : option Z :=
  if negb (truthy s) then None
  else match re_search false (Plus (Cls is_digit)) (py_str s) with
       | Some m => Some (int_of_digits m)
       | None => None
       end.

(** ** Translation to plain English *)

Definition TYPE_ALIASES : list (string * string) :=
  [ ("Ground Delay Programs", "Ground Delay Program");
    ("Ground Delay Program", "Ground Delay Program");
    ("Ground Stops", "Ground Stop");
    ("Ground Stop", "Ground Stop");
    ("Airport Closures", "Airport Closure");
    ("Airport Closure", "Airport Closure");
    ("Departure Delays", "Departure Delay");
    ("Departure Delay", "Departure Delay");
    ("Arrival Delays", "Arrival Delay");
    ("Arrival Delay", "Arrival Delay");
    ("Deicing", "Deicing") ].

Fixpoint alias_lookup (table : list (string * string)) (k : string) : option string :=
  match table with
  | [] => None
  | (k', v) :: rest => if String.eqb k' k then Some v else alias_lookup rest k
  end.

(** The pattern that strips the shouted codes: [!\w+[^ ]* ?]. *)
Definition not_blank (c : ascii) : bool := negb (code c =? 32)%nat.
Definition shouty_code : regex :=
  Cat (Chr "!") (Cat (Plus (Cls is_word)) (Cat (Star (Cls not_blank)) (Opt (Chr " ")))).

(** The replacement of the Airspace Flow Program: its hyphen is U+2011, in
    UTF-8 the bytes 226, 128, 145. *)
Definition nb_hyphen : string :=
  String (ascii_of_nat 226) (String (ascii_of_nat 128) (String (ascii_of_nat 145) "")).

(** The substitution table [repl], in its order. *)
Definition repl : list (regex * string) :=
  [ (Cat Bnd (Cat (Lit "GDP") Bnd), "Ground Delay Program");
    (Cat Bnd (Cat (Lit "GS") Bnd), "Ground Stop");
    (Cat Bnd (Cat (Lit "AFP") Bnd),
       "Airspace Flow Program (en" +:+ nb_hyphen +:+ "route constraint)");
    (Alt (Lit "WX") (Lit "WEATHER"), "weather");
    (Lit "VOLUME", "high traffic volume");
    (Cat (Lit "LOW CEILING") (Opt (Chr "S")), "low clouds");
    (Cat (Lit "LOW VIS") (Opt (Lit "IBILITY")), "low visibility");
    (Alt (Lit "DEICE") (Lit "DEICING"), "deicing operations");
    (Alt (Lit "RWY") (Lit "RUNWAY"), "runway");
    (Lit "TFR", "temporary flight restriction") ].

(** The first step of [friendly_reason]: the codes removed, then [strip]. *)
Definition strip_codes (txt : string) : string :=
  strip (re_sub false shouty_code "" txt).

(** The loop over [repl], each pattern with [re.IGNORECASE]. *)
Definition apply_repl (table : list (regex * string)) (txt : string) : string :=
  fold_left (λ t pr, re_sub true pr.1 pr.2 t) table txt.

(** The last step: runs of white space squashed, the ends trimmed. *)
Definition squash (txt : string) : string :=
  strip_chars " -:;" (re_sub false (Plus (Cls is_space)) " " txt).

Definition normalize (txt : string) : string :=
  squash (apply_repl repl (strip_codes txt)).

(** [friendly_reason(raw)]. *)
Definition friendly_reason (raw : pyval) : pyval :=
  if negb (truthy raw) then PNone
  else
    let txt := normalize (py_str raw) in
    py_or (PStr txt) raw.

(** ** Event records *)

(** The dictionary [rec] built for one airport entry. [type] is always a
    string; the fields read from the feed hold whatever the entry holds. *)
Record event : Type := {
  type : string;
  airport : pyval;
  avg_delay : option Z;
  trend : pyval;
  reason : pyval;
  start : pyval;
  end_ : pyval
}.

(** [TYPE_ALIASES.get(name or "", name or "Event")]. The key is hashed: a
    [Name] that is a (non-empty) mapping or sequence raises [TypeError];
    in every other case the key and the default are strings. *)
Definition std_type_of (name : pyval) : result string :=
  match py_or name (PStr ""), py_or name (PStr "Event") with
  | PStr key, PStr default =>
      Ok (match alias_lookup TYPE_ALIASES key with
          | Some v => v
          | None => default
          end)
  | _, _ => Raise (TypeError "unhashable type")
  end.

(** The dictionary literal of [parse_events_from_xml], for the airport
    entry with items [ap]. *)
Definition make_record (std_type : string) (ap : list (string * pyval)) : event :=
  {| type := std_type;
     airport := py_or (dict_get ap "ARPT")
                  (py_or (dict_get ap "Airport_Code")
                     (py_or (dict_get ap "IATA") (PStr "UNK")));
     avg_delay := to_int_safe
                    (py_or (dict_get ap "Average_Delay")
                       (py_or (dict_get ap "Avg_Delay") (dict_get ap "Delay")));
     trend := dict_get ap "Trend";
     reason := friendly_reason (dict_get ap "Reason");
     start := py_or (dict_get ap "Start_Time")
                (py_or (dict_get ap "StartTime") (dict_get ap "Date"));
     end_ := py_or (dict_get ap "End_Time") (dict_get ap "EndTime") |}.

(** [v.get("Airport") if isinstance(v, dict) else None], and the same for
    ["Name"]. *)
Definition get_if_dict (v : pyval) (k : string) : pyval :=
  match v with
  | PDict items => dict_get items k
  | _ => PNone
  end.

(** The loop over [ensure_list(airports)] for the value [v] of one
    [*_List] key. *)
Definition events_of_list (std_type : string) (v : pyval) : list event :=
  flat_map (λ ap, match ap with
                  | PDict items => [make_record std_type items]
                  | _ => []
                  end)
           (ensure_list (get_if_dict v "Airport")).

(** The body of the loop over [ensure_list(dt)]: the type is resolved
    first, then an item that is no mapping is skipped. *)
Definition events_of_item (dt_item : pyval) : result (list event) :=
  std_type ← std_type_of (get_if_dict dt_item "Name");
  match dt_item with
  | PDict items =>
      Ok (flat_map (λ kv, if endswith kv.1 "_List"
                          then events_of_list std_type kv.2 else [])
                   items)
  | _ => Ok []
  end.

(** The two outer loops: the list [events] before de-duplication. *)
Definition extract_events (data : pyval) : result (list event) :=
  for_each (λ dt, for_each events_of_item (ensure_list dt))
           (find_all_key data "Delay_type").

(** *** De-duplication *)

(** A hashable field: [None] or a string. Hashing a mapping or a sequence
    raises. *)
Definition atom : Type := option string.

Definition hash_value (v : pyval) : result atom :=
  match v with
  | PNone => Ok None
  | PStr s => Ok (Some s)
  | PDict _ => Raise (TypeError "unhashable type: 'dict'")
  | PList _ => Raise (TypeError "unhashable type: 'list'")
  end.

Definition dedup_key_t : Type := string * atom * atom.

(** [(e["type"], e["airport"], e.get("reason") or "")], hashed for the
    membership test. *)
Definition dedup_key (e : event) : result dedup_key_t :=
  a ← hash_value (airport e);
  r ← hash_value (py_or (reason e) (PStr ""));
  Ok (type e, a, r).

(** One round of the loop: the state is [(seen, deduped)]. *)
Definition dedup_step (st : gset dedup_key_t * list event) (e : event)
    : result (gset dedup_key_t * list event) :=
  key ← dedup_key e;
  if decide (key ∈ st.1) then Ok st
  else Ok ({[ key ]} ∪ st.1, st.2 ++ [e]).

Fixpoint dedup_loop (st : gset dedup_key_t * list event) (events : list event)
    : result (gset dedup_key_t * list event) :=
  match events with
  | [] => Ok st
  | e :: rest => st' ← dedup_step st e; dedup_loop st' rest
  end.

Definition dedup (events : list event) : result (list event) :=
  st ← dedup_loop (∅, []) events; Ok st.2.

(** *** Sorting *)

(** [e["avg_delay"] or 0]. *)
Definition delay_or_0 (e : event) : Z :=
  match avg_delay e with
  | Some n => n
  | None => 0%Z
  end.

(** The key of the sort: [(-(e["avg_delay"] or 0), e["airport"])]. *)
Definition sort_key (e : event) : Z * pyval := (- delay_or_0 e, airport e)%Z.

(** [k1 < k2] on two keys: the numbers decide unless they are equal; then
    the airports are compared. Two strings compare by their characters,
    [None] is equal to [None], and [None] against a string raises
    [TypeError]. Mappings and sequences never get here (hashing the
    record's key has raised before), and are given the same error. *)
Definition key_lt (k1 k2 : Z * pyval) : result bool :=
  if (k1.1 =? k2.1)%Z then
    match k1.2, k2.2 with
    | PStr a, PStr b => Ok (String.ltb a b)
    | PNone, PNone => Ok false
    | _, _ => Raise (TypeError "'<' not supported between instances")
    end
  else Ok (k1.1 <? k2.1)%Z.

(** [list.sort] is stable, and a stable sort has one result: the model is
    insertion sort, each record put before the first one that is not
    smaller than it. *)
Fixpoint insert_event (e : event) (sorted : list event) : result (list event) :=
  match sorted with
  | [] => Ok [e]
  | x :: rest =>
      smaller ← key_lt (sort_key x) (sort_key e);
      if smaller : bool then (r ← insert_event e rest; Ok (x :: r))
      else Ok (e :: x :: rest)
  end.

Fixpoint sort_events (events : list event) : result (list event) :=
  match events with
  | [] => Ok []
  | e :: rest => sorted ← sort_events rest; insert_event e sorted
  end.

(** [parse_events_from_xml] after the call of [xmltodict.parse]. *)
Definition parse_events (data : pyval) : result (list event) :=
  events ← extract_events data;
  deduped ← dedup events;
  sort_events deduped.

(** ** HTML rendering *)

(** [s.replace(old, new)] for a one-character [old]. *)
Fixpoint replace_char (old : ascii) (new : string) (s : string) : string :=
  match s with
  | "" => ""
  | String c t =>
      if Ascii.eqb c old then new +:+ replace_char old new t
      else String c (replace_char old new t)
  end.

(** [html.escape(s)]: the ampersand first, then the angle brackets and the
    two quotes. *)
Definition html_escape (s : string) : string :=
  replace_char "'" "&#x27;"
    (replace_char dquote "&quot;"
       (replace_char ">" "&gt;"
          (replace_char "<" "&lt;"
             (replace_char "&" "&amp;" s)))).

(** The em dash of [summarize_event] and of the page: U+2014, in UTF-8 the
    bytes 226, 128, 148. *)
Definition em_dash : string :=
  String (ascii_of_nat 226) (String (ascii_of_nat 128) (String (ascii_of_nat 148) "")).

(** [summarize_event(evt)]. *)
Definition summarize_event (evt : event) : string :=
  let typ := type evt in
  let ap := py_str (airport evt) in
  let base :=
    if String.eqb typ "Ground Stop" then ap +:+ ": Ground stop in effect"
    else if String.eqb typ "Ground Delay Program" then ap +:+ ": Ground delay program"
    else if String.eqb typ "Airport Closure" then ap +:+ ": Airport closed"
    else if String.eqb typ "Departure Delay" then ap +:+ ": Departure delays"
    else if String.eqb typ "Arrival Delay" then ap +:+ ": Arrival delays"
    else if String.eqb typ "Deicing" then ap +:+ ": Deicing in effect"
    else ap +:+ ": " +:+ (if String.eqb typ "" then "Event" else typ) in
  let base :=
    match avg_delay evt with
    | Some avg => if (avg =? 0)%Z then base
                  else base +:+ " (~" +:+ pretty avg +:+ " min avg delay)"
    | None => base
    end in
  let base :=
    if truthy (reason evt) then base +:+ " " +:+ em_dash +:+ " " +:+ py_str (reason evt)
    else base in
  if truthy (start evt) then base +:+ " [since " +:+ py_str (start evt) +:+ "]"
  else base.

(** [counts[t] = counts.get(t, 0) + 1] on a dictionary kept in insertion
    order. *)
Fixpoint count_add (counts : list (string * nat)) (t : string) : list (string * nat) :=
  match counts with
  | [] => [(t, 1)]
  | (k, n) :: rest =>
      if String.eqb k t then (k, n + 1) :: rest else (k, n) :: count_add rest t
  end.

(** [by_type.setdefault(t, []).append(e)], in insertion order too. *)
Fixpoint group_add (by_type : list (string * list event)) (e : event)
    : list (string * list event) :=
  match by_type with
  | [] => [(type e, [e])]
  | (k, es) :: rest =>
      if String.eqb k (type e) then (k, es ++ [e]) :: rest
      else (k, es) :: group_add rest e
  end.

(** [sorted(xs, key=...)] where the keys compare without error ([lt] is
    [<] on the keys): stable insertion sort. *)
Fixpoint insert_by {A} (lt : A → A → bool) (x : A) (sorted : list A) : list A :=
  match sorted with
  | [] => [x]
  | y :: rest => if lt y x then y :: insert_by lt x rest else x :: y :: rest
  end.

Definition sorted_by {A} (lt : A → A → bool) (xs : list A) : list A :=
  foldr (insert_by lt) [] xs.

(** [(-kv[1], kv[0])] compared: more first, then the type name. *)
Definition pill_lt (a b : string * nat) : bool :=
  if (a.2 =? b.2)%nat then String.ltb a.1 b.1 else (b.2 <? a.2)%nat.

Definition esc (s : string) : string := html_escape s.

Definition pill (label : string) (n : nat) : string :=
  "<span class=" +:+ dq +:+ "pill" +:+ dq +:+ ">" +:+ esc label +:+ ": " +:+ esc (pretty n) +:+ "</span>".

Definition li (e : event) : string :=
  "<li>" +:+ esc (summarize_event e) +:+ "</li>".

Definition newline : string := String (ascii_of_nat 10) "".

Definition section_html (typ : string) (es : list event) : string :=
  "<section><h3>" +:+ esc typ +:+ "</h3><ul>"
    +:+ String.concat newline (map li es) +:+ "</ul></section>".

(** The style sheet [css] of [render_html], character for character. *)
Definition css : string :=
  "
    :root { --bg:#0b1220; --card:#121a2b; --text:#e7eefc; --muted:#b7c0d9; --accent:#7fb3ff; }
    * { box-sizing: border-box; }
    body { margin:0; font-family: ui-sans-serif, system-ui, -apple-system, Segoe UI, Roboto, Helvetica, Arial, " +:+ dq +:+ "Apple Color Emoji" +:+ dq +:+ "," +:+ dq +:+ "Segoe UI Emoji" +:+ dq +:+ "; background: var(--bg); color: var(--text); }
    header { padding: 28px 20px; border-bottom: 1px solid #223; background: linear-gradient(180deg, #0b1220, #0b1220cc); position: sticky; top:0; backdrop-filter: blur(6px); }
    h1 { margin:0 0 6px; font-size: 24px; }
    .sub { color: var(--muted); font-size: 14px; }
    main { max-width: 920px; margin: 0 auto; padding: 18px 16px 64px; }
    .card { background: var(--card); border: 1px solid #223; border-radius: 14px; padding: 16px; margin: 16px 0; box-shadow: 0 10px 25px rgba(3,10,30,.25); }
    .row { display: flex; gap: 12px; flex-wrap: wrap; }
    .pill { display:inline-block; padding:6px 10px; border-radius: 999px; border:1px solid #234; background:#0e1730; color:#cfe0ff; font-size: 12px; }
    h2 { margin:10px 0 8px; font-size: 18px; }
    h3 { margin:10px 0 8px; font-size: 16px; color: var(--accent); }
    ul { margin: 0 0 0 18px; }
    footer { color: var(--muted); font-size: 12px; padding: 24px 16px; text-align: center; }
    a { color: var(--accent); }
    ".

(** The pieces of the template [html_doc] between its placeholders. *)
Definition doc_open : string :=
  "<!doctype html>
<html lang=" +:+ dq +:+ "en" +:+ dq +:+ ">
<meta charset=" +:+ dq +:+ "utf-8" +:+ dq +:+ ">
<meta name=" +:+ dq +:+ "viewport" +:+ dq +:+ " content=" +:+ dq +:+ "width=device-width, initial-scale=1" +:+ dq +:+ ">
<title>FAA Daily Bulletin</title>
<style>".

Definition doc_after_css : string :=
  "</style>
<header>
  <h1>FAA Daily Delay & Event Bulletin</h1>
  <div class=" +:+ dq +:+ "sub" +:+ dq +:+ ">Generated ".

Definition doc_after_today : string :=
  " — Source: FAA NAS Status (Active Airport Events)</div>
  <div class=" +:+ dq +:+ "row" +:+ dq +:+ " style=" +:+ dq +:+ "margin-top:10px;" +:+ dq +:+ ">".

Definition doc_after_pills : string :=
  "</div>
</header>
<main>
  <div class=" +:+ dq +:+ "card" +:+ dq +:+ ">
    <h2>Today’s Headlines</h2>
    <ul>
      ".

Definition doc_after_items : string :=
  "
    </ul>
  </div>
  <div class=" +:+ dq +:+ "card" +:+ dq +:+ ">
    <h2>All Active Airport Events</h2>
    ".

Definition doc_close : string :=
  "
  </div>
</main>
<footer>
  Built automatically from the FAA NAS Status XML API. This is an unofficial summary; verify details with your airline and the FAA.
</footer>
</html>
".

(** [by_type[typ]], for a [typ] among the keys. *)
Fixpoint group_get (by_type : list (string * list event)) (typ : string) : list event :=
  match by_type with
  | [] => []
  | (k, es) :: rest => if String.eqb k typ then es else group_get rest typ
  end.

(** [render_html], given the text [today] the timestamp formats to. *)
Definition render_page (events : list event) (today : string) : string :=
  let counts := fold_left count_add (map type events) [] in
  let top := take 8 events in
  let pills := String.concat "" (map (λ kv, pill kv.1 kv.2) (sorted_by pill_lt counts)) in
  let joined := String.concat newline (map li top) in
  let items := if String.eqb joined "" then "<li>No active airport events right now.</li>"
               else joined in
  let by_type := fold_left group_add events [] in
  let sections :=
    map (λ typ, section_html typ (group_get by_type typ))
        (sorted_by String.ltb (map fst by_type)) in
  let sections_html :=
    match sections with
    | [] => "<p>No active events.</p>"
    | _ => String.concat newline sections
    end in
  doc_open +:+ css +:+ doc_after_css +:+ esc today +:+ doc_after_today +:+ pills
    +:+ doc_after_pills +:+ items +:+ doc_after_items +:+ sections_html +:+ doc_close.

(** ** The program and its surroundings *)

Definition NAS_XML_URL : string :=
  "https://nasstatus.faa.gov/api/airport-status-information".

(** What the program can change: the files and directories on disk and the
    lines written to the two output streams. [denied] holds the names the
    file system will not let the program create or write (no permission, a
    read-only or full disk); the program never changes it. *)
Record world : Type := {
  files : gmap string string;
  dirs : gset string;
  stdout : list string;
  stderr : list string;
  denied : gset string
}.

Definition print_out (line : string) (w : world) : world :=
  {| files := files w; dirs := dirs w;
     stdout := stdout w ++ [line]; stderr := stderr w; denied := denied w |}.

Definition print_err (line : string) (w : world) : world :=
  {| files := files w; dirs := dirs w;
     stdout := stdout w; stderr := stderr w ++ [line]; denied := denied w |}.

(** [os.path.join(a, b)] and [os.path.dirname] of the result, for relative
    names without a slash. *)
Definition path_join (a b : string) : string := a +:+ "/" +:+ b.

(** [os.makedirs(dir, exist_ok=True)] for a name without a slash: nothing
    to do when the directory is there; [FileExistsError] when the name is
    a regular file; [PermissionError] when the file system refuses. *)
Definition makedirs (dir : string) (w : world) : result world :=
  if decide (dir ∈ dirs w) then Ok w
  else if decide (dir ∈ dom (files w))
  then Raise (OSError ("[Errno 17] File exists: '" +:+ dir +:+ "'"))
  else if decide (dir ∈ denied w)
  then Raise (OSError ("[Errno 13] Permission denied: '" +:+ dir +:+ "'"))
  else Ok {| files := files w; dirs := {[ dir ]} ∪ dirs w;
             stdout := stdout w; stderr := stderr w; denied := denied w |}.

(** [with open(path, "w", encoding="utf-8") as f: f.write(html_text)]:
    [IsADirectoryError] when the name is a directory, an [OSError] when
    the file system refuses; otherwise the file holds the text, whatever it
    held before. *)
Definition open_write (path html_text : string) (w : world) : result world :=
  if decide (path ∈ dirs w)
  then Raise (OSError ("[Errno 21] Is a directory: '" +:+ path +:+ "'"))
  else if decide (path ∈ denied w)
  then Raise (OSError ("[Errno 13] Permission denied: '" +:+ path +:+ "'"))
  else Ok {| files := <[ path := html_text ]> (files w); dirs := dirs w;
             stdout := stdout w; stderr := stderr w; denied := denied w |}.

(** [write_html(html_text, out_path)], the path given as directory and file
    name: the directory is made if it is missing, then the file is
    replaced. Either step can raise, and nothing here catches it. *)
Definition write_html (html_text : string) (dir name : string) (w : world)
    : result world :=
  w ← makedirs dir w;
  open_write (path_join dir name) html_text w.

(** The answer of the server as [fetch_xml] reads it. *)
Record response : Type := {
  status_code : nat;
  content_type : option string;
  text : string
}.

Definition exn_msg (e : exn) : string :=
  match e with
  | TypeError m | ExpatError m | RequestException m | HTTPError m | OSError m => m
  end.

(** [needle in hay]. *)
Definition contains (needle hay : string) : bool :=
  match String.index 0 needle hay with
  | Some _ => true
  | None => false
  end.

(** [r.raise_for_status()]: a status from 400 to 599 raises. *)
Definition raise_for_status (url : string) (r : response) : result unit :=
  if (400 <=? status_code r)%nat && (status_code r <? 600)%nat
  then Raise (HTTPError (pretty (status_code r) +:+ " Error for url: " +:+ url))
  else Ok tt.

(** The format of the timestamp in [render_html]. *)
Definition stamp_format : string := "%A, %B %d, %Y %I:%M %p %Z".

Section program.

(** The surroundings: the server's answer to [requests.get] (or the
    exception it raises), [xmltodict.parse], the clock, and how a timestamp
    prints ([isoformat], and [strftime] in the local time zone). *)
Variable requests_get : string → nat → result response.
Variable xmltodict_parse : string → result pyval.
Variable datetime : Type.
Variable utc_now : datetime.
Variable isoformat : datetime → string.
Variable local_strftime : datetime → string → string.

(** [fetch_xml(url, timeout)]: the text of the answer, or [None] after any
    exception; the warning and the error go to the diagnostic stream. *)
Definition fetch_xml (url : string) (timeout : nat) (w : world)
    : result (option string * world) :=
  try_except
    (r ← requests_get url timeout;
     _ ← raise_for_status url r;
     let w' :=
       if negb (contains "xml" (default "" (content_type r)))
          && negb (startswith (strip (text r)) "<")
       then print_err "Warning: response did not look like XML; continuing anyway." w
       else w in
     Ok (Some (text r), w'))
    (λ e, Ok (None, print_err ("ERROR fetching " +:+ url +:+ ": " +:+ exn_msg e) w)).

(** [parse_events_from_xml(xml_text)]. *)
Definition parse_events_from_xml (xml_text : string) : result (list event) :=
  data ← xmltodict_parse xml_text;
  parse_events data.

(** [render_html(events, generated_at)]. *)
Definition render_html (events : list event) (generated_at : datetime) : string :=
  render_page events (local_strftime generated_at stamp_format).

(** The fallback page of [main]. *)
Definition fallback_page (now : datetime) : string :=
  "<!doctype html><meta charset='utf-8'><title>FAA Bulletin</title>
        <pre>Could not retrieve FAA data at " +:+ isoformat now
  +:+ "Z. Will try again next run.</pre>".

(** [not xml_text] for the optional text [fetch_xml] returns. *)
Definition no_text (xml_text : option string) : bool :=
  match xml_text with
  | None => true
  | Some s => String.eqb s ""
  end.

(** [main()]. An exception that nothing catches is its [Raise]: the two
    calls of [write_html] stand outside every [try]. *)
Definition main (w : world) : result world :=
  fetched ← fetch_xml NAS_XML_URL 30 w;
  let xml_text := fetched.1 in
  let w := fetched.2 in
  let now := utc_now in
  if no_text xml_text then
    let html_text := fallback_page now in
    w ← write_html html_text "docs" "index.html" w;
    Ok (print_out "Wrote fallback HTML." w)
  else
    parsed ← try_except
                (events ← parse_events_from_xml (default "" xml_text); Ok (events, w))
                (λ e, Ok ([], print_err ("ERROR parsing XML: " +:+ exn_msg e) w));
    let events := parsed.1 in
    let w := parsed.2 in
    let html_text := render_html events now in
    w ← write_html html_text "docs" "index.html" w;
    Ok (print_out ("Generated docs/index.html with "
                     +:+ pretty (length events) +:+ " events.") w).

End program.

(** ** Definitions that state the specification *)

(** The composite key of the specification:
    (type, airport, reason-or-empty-string). *)
Definition key_fields (e : event) : string * pyval * pyval :=
  (type e, airport e, py_or (reason e) (PStr "")).

(** The record can be a member of the set [seen]: its airport and its
    reason-or-empty-string are [None] or strings. *)
Definition hashable (e : event) : bool :=
  is_scalar (airport e) && is_scalar (py_or (reason e) (PStr "")).

(** The fallback chain of the specification: the value under the first of
    [keys] that the mapping has with a value other than [None]. *)
Fixpoint first_present (ap : list (string * pyval)) (keys : list string)
    (otherwise : pyval) : pyval :=
  match keys with
  | [] => otherwise
  | k :: rest =>
      match dict_get ap k with
      | PNone => first_present ap rest otherwise
      | v => v
      end
  end.

(** A value as [xmltodict] builds them: never an empty string, an empty
    mapping or an empty sequence (an element without content is [None]). *)
Definition never_empty (v : pyval) : bool :=
  match v with
  | PNone => true
  | _ => truthy v
  end.

(** [dt_item] is one of the delay-type blocks of the tree: an element of
    [ensure_list] of a value stored under ["Delay_type"]. *)
Definition delay_type_item (data dt_item : pyval) : Prop :=
  ∃ dt, stored_under "Delay_type" dt data ∧ dt_item ∈ ensure_list dt.

(** The airport of a record as text, where it is text. *)
Definition airport_text (e : event) : option string :=
  match airport e with
  | PStr s => Some s
  | _ => None
  end.

Definition text_airport (e : event) : Prop := ∃ a, airport e = PStr a.

(** The records of a list that have a given sort key, in their order. *)
Definition with_sort_key (delay : Z) (code_ : string) (l : list event) : list event :=
  List.filter (λ e, (default 0%Z (avg_delay e) =? delay)%Z
                    && bool_decide (airport_text e = Some code_)) l.

(** Every character of [s] satisfies [p]. *)
Fixpoint all_chars (p : ascii → bool) (s : string) : bool :=
  match s with
  | "" => true
  | String c t => p c && all_chars p t
  end.

(** The status of an answer does not make [raise_for_status] raise. *)
Definition status_ok (r : response) : bool :=
  negb ((400 <=? status_code r)%nat && (status_code r <? 600)%nat).

(** The file system takes the write of [name] in [dir]: the directory is
    there, or its name is free and may be created; and the file's name is
    no directory and may be written. *)
Definition write_accepted (dir name : string) (w : world) : bool :=
  (bool_decide (dir ∈ dirs w)
   || negb (bool_decide (dir ∈ dom (files w))) && negb (bool_decide (dir ∈ denied w)))
  && negb (bool_decide (path_join dir name ∈ dirs w))
  && negb (bool_decide (path_join dir name ∈ denied w)).

(** The state after a write that was accepted: the file holds the text,
    the directory is there, and nothing else has changed. *)
Definition after_write (html_text : string) (dir name : string) (w : world) : world :=
  {| files := <[ path_join dir name := html_text ]> (files w);
     dirs := {[ dir ]} ∪ dirs w;
     stdout := stdout w; stderr := stderr w; denied := denied w |}.

(** The fetch fails: [requests.get] raises, or the status is an error. *)
Definition fetch_fails (requests_get : string → nat → result response) : Prop :=
  (∃ e, requests_get NAS_XML_URL 30 = Raise e)
  ∨ (∃ r, requests_get NAS_XML_URL 30 = Ok r ∧ status_ok r = false).

(** The fetch returns the answer [r]. *)
Definition fetch_returns (requests_get : string → nat → result response)
    (r : response) : Prop :=
  requests_get NAS_XML_URL 30 = Ok r ∧ status_ok r = true.

(** ** Definitions used in the proofs *)

(** The scanner the pattern [shouty_code] amounts to: outside a code, an
    exclamation mark followed by a word character starts one; inside, the
    characters up to the next space, and that space, are dropped. *)
Fixpoint drop_codes (inside : bool) (s : string) : string :=
  match s with
  | "" => ""
  | String c t =>
      if inside then
        if not_blank c then drop_codes true t else drop_codes false t
      else if Ascii.eqb c "!" && word_after (None, t) then drop_codes true t
      else String c (drop_codes false t)
  end.

(** The text after a code that is being passed: what follows the next
    space. *)
Fixpoint after_code (s : string) : string :=
  match s with
  | "" => ""
  | String c t => if not_blank c then after_code t else t
  end.

(** The hashed form of the key fields: what [dedup_key] returns for a
    record that can be hashed. *)
Definition atom_of (v : pyval) : atom :=
  match v with
  | PStr s => Some s
  | _ => None
  end.

Definition hash_fields (k : string * pyval * pyval) : dedup_key_t :=
  (k.1.1, atom_of k.1.2, atom_of k.2).

(** The records the loop of [dedup] appends when it starts with [seen]. *)
Fixpoint kept_of (seen : gset dedup_key_t) (events : list event) : list event :=
  match events with
  | [] => []
  | e :: rest =>
      let key := hash_fields (key_fields e) in
      if decide (key ∈ seen) then kept_of seen rest
      else e :: kept_of ({[ key ]} ∪ seen) rest
  end.

(** The order of the sort on records whose airports are text. *)
Definition event_ltb (x e : event) : bool :=
  match key_lt (sort_key x) (sort_key e) with
  | Ok b => b
  | Raise _ => false
  end.

(** ** A sample feed *)

(** A feed and the tree [xmltodict.parse] builds from it: two blocks, the
    second with a name the alias table does not have; JFK is listed twice
    under the same type and reason. *)
Definition sample_xml : string :=
  "<AIRPORT_STATUS_INFORMATION><Delay_type><Name>Ground Stops</Name><Ground_Stop_List><Airport><ARPT>JFK</ARPT><Reason>WX</Reason><Avg_Delay>45 minutes</Avg_Delay></Airport><Airport><ARPT>BOS</ARPT><Reason>VOLUME</Reason><Avg_Delay>45</Avg_Delay></Airport><Airport><ARPT>JFK</ARPT><Reason>weather</Reason><Avg_Delay>90 minutes</Avg_Delay></Airport></Ground_Stop_List></Delay_type><Delay_type><Name>Foo</Name><Foo_List><Airport><IATA>BOS</IATA><Delay>45</Delay></Airport></Foo_List></Delay_type></AIRPORT_STATUS_INFORMATION>".

Definition sample_tree : pyval :=
  PDict [("AIRPORT_STATUS_INFORMATION", PDict [("Delay_type", PList [
    PDict [("Name", PStr "Ground Stops");
           ("Ground_Stop_List", PDict [("Airport", PList [
              PDict [("ARPT", PStr "JFK"); ("Reason", PStr "WX");
                     ("Avg_Delay", PStr "45 minutes")];
              PDict [("ARPT", PStr "BOS"); ("Reason", PStr "VOLUME");
                     ("Avg_Delay", PStr "45")];
              PDict [("ARPT", PStr "JFK"); ("Reason", PStr "weather");
                     ("Avg_Delay", PStr "90 minutes")]])])];
    PDict [("Name", PStr "Foo");
           ("Foo_List", PDict [("Airport",
              PDict [("IATA", PStr "BOS"); ("Delay", PStr "45")])])]])])].

(** A parser that knows the sample feed and rejects anything else. *)
Definition sample_parse (xml_text : string) : result pyval :=
  if String.eqb xml_text sample_xml then Ok sample_tree
  else Raise (ExpatError "syntax error").

Definition sample_event (typ code_ : string) (delay : Z) (why : pyval) : event :=
  {| type := typ; airport := PStr code_; avg_delay := Some delay; trend := PNone;
     reason := why; start := PNone; end_ := PNone |}.

(** The records of the sample feed, de-duplicated and sorted. *)
Definition sample_events : list event :=
  [ sample_event "Ground Stop" "BOS" 45 (PStr "high traffic volume");
    sample_event "Foo" "BOS" 45 PNone;
    sample_event "Ground Stop" "JFK" 45 (PStr "weather") ].

(** A second feed, with delays that differ: one block, five airports, of
    which two have the same delay and two have none. *)
Definition delays_xml : string :=
  "<AIRPORT_STATUS_INFORMATION><Delay_type><Name>Ground Delay Programs</Name><Ground_Delay_List><Airport><ARPT>SFO</ARPT><Avg_Delay>10 minutes</Avg_Delay></Airport><Airport><ARPT>ORD</ARPT><Avg_Delay>90 minutes</Avg_Delay></Airport><Airport><ARPT>DEN</ARPT></Airport><Airport><ARPT>ATL</ARPT><Avg_Delay>90 minutes</Avg_Delay></Airport><Airport><ARPT>BOS</ARPT></Airport></Ground_Delay_List></Delay_type></AIRPORT_STATUS_INFORMATION>".

Definition delays_tree : pyval :=
  PDict [("AIRPORT_STATUS_INFORMATION", PDict [("Delay_type",
    PDict [("Name", PStr "Ground Delay Programs");
           ("Ground_Delay_List", PDict [("Airport", PList [
              PDict [("ARPT", PStr "SFO"); ("Avg_Delay", PStr "10 minutes")];
              PDict [("ARPT", PStr "ORD"); ("Avg_Delay", PStr "90 minutes")];
              PDict [("ARPT", PStr "DEN")];
              PDict [("ARPT", PStr "ATL"); ("Avg_Delay", PStr "90 minutes")];
              PDict [("ARPT", PStr "BOS")]])])])])].

Definition delays_parse (xml_text : string) : result pyval :=
  if String.eqb xml_text delays_xml then Ok delays_tree
  else Raise (ExpatError "syntax error").

Definition delayed (code_ : string) (delay : option Z) : event :=
  {| type := "Ground Delay Program"; airport := PStr code_; avg_delay := delay;
     trend := PNone; reason := PNone; start := PNone; end_ := PNone |}.

(** Its records, sorted: the longer delay first, equal delays by airport,
    the records without a delay last. *)
Definition delays_events : list event :=
  [ delayed "ATL" (Some 90%Z); delayed "ORD" (Some 90%Z); delayed "SFO" (Some 10%Z);
    delayed "BOS" None; delayed "DEN" None ].

(** A server that answers with [body], a clock and its formats, and the
    state before a run. *)
Definition sample_get (body : string) (url : string) (timeout : nat) : result response :=
  Ok {| status_code := 200; content_type := Some "text/xml"; text := body |}.

Definition empty_world : world :=
  {| files := ∅; dirs := ∅; stdout := []; stderr := []; denied := ∅ |}.

(** A state in which [docs] is a regular file. *)
Definition docs_is_a_file : world :=
  {| files := {[ "docs" := "notes" ]}; dirs := ∅; stdout := []; stderr := [];
     denied := ∅ |}.

(** ** The rest of the helpers *)

(** One step of a path of [walk]: the key of a mapping or the index of a
    sequence. *)
Inductive step : Type :=
| Key (k : string)
| Index (i : nat).

(** [for i, v in enumerate(l)], the pieces appended. *)
Section enumerate.
Context {A B : Type} (f : nat → A → list B).

Fixpoint enumerate_from (i : nat) (l : list A) : list B :=
  match l with
  | [] => []
  | x :: l' => f i x ++ enumerate_from (S i) l'
  end.
End enumerate.

(** [walk(obj, path)]: what the generator yields, in order. A value that
    is neither a mapping nor a sequence yields [(path[:-1], path[-1] if
    path else None, obj)]. *)
Fixpoint walk (obj : pyval) (path : list step) : list (list step * option step * pyval) :=
  match obj with
  | PDict items => flat_map (λ kv, walk kv.2 (path ++ [Key kv.1])) items
  | PList elems => enumerate_from (λ i v, walk v (path ++ [Index i])) 0 elems
  | _ => [(removelast path, last path, obj)]
  end.

(** [reaches obj path v]: following [path] from [obj], a key into a
    mapping and an index into a sequence, leads to [v]. *)
Inductive reaches : pyval → list step → pyval → Prop :=
| reaches_here obj : reaches obj [] obj
| reaches_key items k child path v :
    (k, child) ∈ items → reaches child path v →
    reaches (PDict items) (Key k :: path) v
| reaches_index elems i child path v :
    elems !! i = Some child → reaches child path v →
    reaches (PList elems) (Index i :: path) v.

(** What a path of positions leads to: the steps along it (the key of
    the item or the index of the element chosen at each position) and the
    value at its end. The empty path leads to the value itself. *)
Fixpoint value_at (obj : pyval) (pos : list nat) : option (list step * pyval) :=
  match pos with
  | [] => Some ([], obj)
  | i :: rest =>
      match obj with
      | PDict items =>
          match items !! i with
          | Some kv => prod_map (cons (Key kv.1)) id <$> value_at kv.2 rest
          | None => None
          end
      | PList elems =>
          match elems !! i with
          | Some v => prod_map (cons (Index i)) id <$> value_at v rest
          | None => None
          end
      | _ => None
      end
  end.

(** The paths of positions to the values that are neither mappings nor
    sequences, as a traversal in document order meets them. *)
Fixpoint leaf_paths (obj : pyval) : list (list nat) :=
  match obj with
  | PDict items => paths_from (λ _, false) (λ kv, leaf_paths kv.2) 0 items
  | PList elems => paths_from (λ _, false) (λ v, leaf_paths v) 0 elems
  | _ => [[]]
  end.

(** [counts.get(t, 0)]. *)
Fixpoint count_get (counts : list (string * nat)) (t : string) : nat :=
  match counts with
  | [] => 0
  | (k, n) :: rest => if String.eqb k t then n else count_get rest t
  end.

(** The two dictionaries [render_html] builds from the events. *)
Definition counts_of (events : list event) : list (string * nat) :=
  fold_left count_add (map type events) [].
Definition by_type_of (events : list event) : list (string * list event) :=
  fold_left group_add events [].

(** The events of one type, in their order. *)
Definition of_type (t : string) (events : list event) : list event :=
  List.filter (λ e, String.eqb (type e) t) events.

(** No character of [s] satisfies [p]. *)
Definition no_char (p : ascii → bool) (s : string) : bool :=
  all_chars (λ c, negb (p c)) s.

(** The first and the last character of a text. *)
Definition first_char (s : string) : option ascii :=
  match s with
  | "" => None
  | String c _ => Some c
  end.

Fixpoint last_char (s : string) : option ascii :=
  match s with
  | "" => None
  | String c "" => Some c
  | String _ t => last_char t
  end.

(** White space occurs in [s] only as single spaces: each white-space
    character is a space and the character after it is no white space. *)
Fixpoint single_spaced (s : string) : bool :=
  match s with
  | "" => true
  | String c t =>
      (if is_space c
       then Ascii.eqb c " " && negb (match t with String d _ => is_space d | "" => false end)
       else true)
      && single_spaced t
  end.

(** The scanner the pattern [\s+] with the replacement [" "] amounts to:
    a run of white space is written as one space. *)
Fixpoint squash_spaces (inside : bool) (s : string) : string :=
  match s with
  | "" => ""
  | String c t =>
      if is_space c then
        if inside then squash_spaces true t else String " " (squash_spaces true t)
      else String c (squash_spaces false t)
  end.

(** The text does not begin with a digit. *)
Definition no_digit_first (s : string) : bool :=
  match s with
  | String c _ => negb (is_digit c)
  | "" => true
  end.


(** The characters [html.escape] replaces, the ampersand apart: the angle
    brackets and the two quotes. *)
Definition is_markup (c : ascii) : bool :=
  Ascii.eqb c "<" || Ascii.eqb c ">" || Ascii.eqb c dquote || Ascii.eqb c "'".

(** The characters [html.escape] rewrites. *)
Definition is_special (c : ascii) : bool := is_markup c || Ascii.eqb c "&".

(** A [Name] that cannot be a key of [TYPE_ALIASES]: a mapping or a
    sequence that is not empty (an empty one is replaced by the empty
    string before the look-up). *)
Definition unhashable_name (v : pyval) : bool := truthy v && negb (is_scalar v).

(** A state in which the directory of the page is not there yet and
    another file is. *)
Definition readme_only : world :=
  {| files := {[ "README.md" := "# FAA Daily Bulletin" ]}; dirs := ∅;
     stdout := []; stderr := []; denied := ∅ |}.
(** ** Theorems: tree extractor *)

Lemma find_all_key_preorder obj k :
  find_all_key obj k
  = map snd (List.filter (λ kv, String.eqb kv.1 k) (preorder_items obj)).
Proof.
  induction obj as [| s | items IH | elems IH] using pyval_nested_ind; simpl; try done.
  - induction IH as [|[k' v] items Hv _ IHitems]; simpl; [done|].
    simpl in Hv. rewrite IHitems, Hv.
    destruct (String.eqb k' k); simpl; by rewrite List.filter_app, List.map_app.
  - induction IH as [|v elems Hv _ IHelems]; simpl; [done|].
    by rewrite List.filter_app, List.map_app, <- IHelems, Hv.
Qed.

Lemma stored_under_preorder k v obj :
  stored_under k v obj ↔ (k, v) ∈ preorder_items obj.
Proof.
  split.
  - induction 1 as [items Hin | k' child items Hin _ IH | child elems Hin _ IH]; simpl.
    + apply list_elem_of_In, in_flat_map. exists (k, v).
      split; [by apply list_elem_of_In | by left].
    + apply list_elem_of_In, in_flat_map. exists (k', child).
      split; [by apply list_elem_of_In | right; by apply list_elem_of_In].
    + apply list_elem_of_In, in_flat_map. exists child.
      split; by apply list_elem_of_In.
  - induction obj as [| s | items IH | elems IH] using pyval_nested_ind; simpl;
      try (by intros H%elem_of_nil).
    + intros ([k' child] & Hin & Hsub)%list_elem_of_In%in_flat_map.
      apply list_elem_of_In in Hin. destruct Hsub as [Heq | Hsub].
      * inversion Heq; subst. by apply stored_here.
      * eapply stored_in_value; [done|].
        rewrite Forall_forall in IH. apply (IH _ Hin). by apply list_elem_of_In.
    + intros (child & Hin & Hsub)%list_elem_of_In%in_flat_map.
      apply list_elem_of_In in Hin. eapply stored_in_element; [done|].
      rewrite Forall_forall in IH. apply (IH _ Hin). by apply list_elem_of_In.
Qed.

Lemma find_all_key_elem_of k v obj :
  v ∈ find_all_key obj k ↔ stored_under k v obj.
Proof.
  rewrite find_all_key_preorder, stored_under_preorder, list_elem_of_In, in_map_iff.
  split.
  - intros ([k' v'] & Hv & Hin). simpl in Hv. subst v'.
    apply filter_In in Hin as [Hin Hk]. simpl in Hk.
    apply String.eqb_eq in Hk. subst k'. by apply list_elem_of_In.
  - intros Hin. exists (k, v). split; [done|].
    apply filter_In. split; [by apply list_elem_of_In|]. simpl. apply String.eqb_refl.
Qed.

(** *** Document order *)

Lemma before_cons i p q : before p q → before (i :: p) (i :: q).
Proof.
  unfold before. simpl. intros ->. rewrite Nat.eqb_refl. by rewrite orb_true_r.
Qed.

Lemma before_lt i j p q : (i < j)%nat → before (i :: p) (j :: q).
Proof. unfold before. simpl. intros H%Nat.ltb_lt. by rewrite H. Qed.

Section paths_from_facts.
Context {A : Type} (hit : A → bool) (inside : A → list (list nat)).

Lemma paths_from_heads l : ∀ i p,
  p ∈ paths_from hit inside i l → ∃ j rest, p = j :: rest ∧ (i ≤ j)%nat.
Proof.
  induction l as [|x l IH]; intros i p; simpl.
  - by intros ?%elem_of_nil.
  - rewrite !elem_of_app. intros [Hhit | [Hin | Hrest]].
    + destruct (hit x); [|by apply elem_of_nil in Hhit].
      apply list_elem_of_singleton in Hhit as ->. by exists i, [].
    + apply list_elem_of_fmap in Hin as (q & -> & _). by exists i, q.
    + destruct (IH _ _ Hrest) as (j & rest & -> & Hle). exists j, rest. split; [done | lia].
Qed.

Lemma paths_from_sorted l : ∀ i,
  Forall (λ x, StronglySorted before (inside x) ∧ [] ∉ inside x) l →
  StronglySorted before (paths_from hit inside i l).
Proof.
  induction l as [|x l IH]; intros i Hl; simpl; [constructor|].
  apply Forall_cons in Hl as [[Hsorted Hnonempty] Hl].
  apply StronglySorted_app_2.
  - intros p q Hp Hq. destruct (hit x); [|by apply elem_of_nil in Hp].
    apply list_elem_of_singleton in Hp as ->.
    apply elem_of_app in Hq as [Hq | Hq].
    + apply list_elem_of_fmap in Hq as (q' & -> & Hq').
      destruct q' as [|j q']; [done|]. unfold before. simpl.
      by rewrite Nat.eqb_refl, orb_true_r.
    + destruct (paths_from_heads _ _ _ Hq) as (j & rest & -> & Hle).
      by apply before_lt.
  - destruct (hit x); repeat constructor.
  - apply StronglySorted_app_2.
    + intros p q Hp Hq. apply list_elem_of_fmap in Hp as (p' & -> & Hp').
      destruct (paths_from_heads _ _ _ Hq) as (j & rest & -> & Hle).
      by apply before_lt.
    + clear -Hsorted. induction Hsorted as [|p ps _ IHs Hall]; simpl; constructor; [done|].
      rewrite Forall_fmap. eapply Forall_impl; [done|]. intros q. apply before_cons.
    + by apply IH.
Qed.

Lemma paths_from_elem_of l : ∀ i j rest,
  (j :: rest) ∈ paths_from hit inside i l ↔
  ∃ x, l !! (j - i)%nat = Some x ∧ (i ≤ j)%nat
       ∧ ((rest = [] ∧ hit x = true) ∨ rest ∈ inside x).
Proof.
  induction l as [|x l IH]; intros i j rest; simpl.
  - split; [by intros ?%elem_of_nil | by intros (x & ? & _)].
  - rewrite !elem_of_app, IH. split.
    + intros [Hhit | [Hin | (y & Hy & Hle & Hcase)]].
      * destruct (hit x) eqn:Hx; [|by apply elem_of_nil in Hhit].
        apply list_elem_of_singleton in Hhit as [= -> ->].
        exists x. rewrite Nat.sub_diag. split; [done|]. split; [done|]. by left.
      * apply list_elem_of_fmap in Hin as (q & [= -> ->] & Hq).
        exists x. rewrite Nat.sub_diag. split; [done|]. split; [done|]. by right.
      * exists y. replace (j - i) with (S (j - S i)) by lia. split; [done|].
        split; [lia | done].
    + intros (y & Hy & Hle & Hcase).
      destruct (decide (j = i)) as [->|Hne].
      * rewrite Nat.sub_diag in Hy. injection Hy as ->.
        destruct Hcase as [[-> Hhit] | Hin].
        -- left. rewrite Hhit. by apply list_elem_of_singleton.
        -- right. left. apply list_elem_of_fmap. by exists rest.
      * right. right. exists y. replace (j - i) with (S (j - S i)) in Hy by lia.
        split; [done|]. split; [lia | done].
Qed.

End paths_from_facts.

Lemma item_at_nil obj : item_at obj [] = None.
Proof. by destruct obj. Qed.

Lemma key_paths_nonempty obj k : [] ∉ key_paths obj k.
Proof.
  destruct obj as [| s | items | elems]; simpl; try (by intros ?%elem_of_nil);
    intros (j & rest & [=] & _)%paths_from_heads.
Qed.

(** The paths are in document order. *)
Lemma key_paths_sorted obj k : StronglySorted before (key_paths obj k).
Proof.
  induction obj as [| s | items IH | elems IH] using pyval_nested_ind; simpl;
    try constructor.
  - apply paths_from_sorted. eapply Forall_impl; [exact IH|].
    intros kv Hs. split; [done | apply key_paths_nonempty].
  - apply paths_from_sorted. eapply Forall_impl; [exact IH|].
    intros v Hs. split; [done | apply key_paths_nonempty].
Qed.

(** A path is listed exactly when it leads to an item with the key. *)
Lemma key_paths_elem_of obj k : ∀ p,
  p ∈ key_paths obj k ↔ ∃ v, item_at obj p = Some (k, v).
Proof.
  induction obj as [| s | items IH | elems IH] using pyval_nested_ind; intros p.
  - split; [by intros ?%elem_of_nil | intros [v Hv]; by destruct p].
  - split; [by intros ?%elem_of_nil | intros [v Hv]; by destruct p].
  - destruct p as [|j rest].
    { split; [by intros ?%key_paths_nonempty | by intros [v Hv]]. }
    simpl key_paths. rewrite paths_from_elem_of, Nat.sub_0_r. simpl item_at.
    rewrite Forall_forall in IH. split.
    + intros ([k' v'] & Hlook & _ & Hcase). rewrite Hlook.
      destruct Hcase as [[-> Hk] | Hin].
      * simpl in Hk. apply String.eqb_eq in Hk as ->. by exists v'.
      * apply IH in Hin; [|by eapply list_elem_of_lookup_2].
        destruct rest; [|done]. destruct Hin as [v Hv]. by rewrite item_at_nil in Hv.
    + intros [v Hv]. destruct (items !! j) as [[k' v']|] eqn:Hlook; [|done].
      exists (k', v'). split; [done|]. split; [lia|].
      destruct rest as [|i rest].
      * left. injection Hv as -> ->. split; [done|]. apply String.eqb_refl.
      * right. apply IH; [by eapply list_elem_of_lookup_2|]. by exists v.
  - destruct p as [|j rest].
    { split; [by intros ?%key_paths_nonempty | by intros [v Hv]]. }
    simpl key_paths. rewrite paths_from_elem_of, Nat.sub_0_r. simpl item_at.
    rewrite Forall_forall in IH. split.
    + intros (v' & Hlook & _ & Hcase). rewrite Hlook.
      destruct Hcase as [[_ Hk] | Hin]; [done|].
      apply IH in Hin; [done | by eapply list_elem_of_lookup_2].
    + intros [v Hv]. destruct (elems !! j) as [v'|] eqn:Hlook; [|done].
      exists v'. split; [done|]. split; [lia|].
      right. apply IH; [by eapply list_elem_of_lookup_2|]. by exists v.
Qed.

(** The values found are the values at the paths, one for one. *)
Lemma find_all_key_at_paths obj k :
  Forall2 (λ p v, item_at obj p = Some (k, v)) (key_paths obj k) (find_all_key obj k).
Proof.
  induction obj as [| s | items IH | elems IH] using pyval_nested_ind; simpl;
    try constructor.
  - assert (∀ pre l,
      Forall (λ kv, Forall2 (λ p v, item_at kv.2 p = Some (k, v))
                      (key_paths kv.2 k) (find_all_key kv.2 k)) l →
      Forall2 (λ p v, item_at (PDict (pre ++ l)) p = Some (k, v))
        (paths_from (λ kv, String.eqb kv.1 k) (λ kv, key_paths kv.2 k) (length pre) l)
        (flat_map (λ kv, (if String.eqb kv.1 k then [kv.2] else [])
                           ++ find_all_key kv.2 k) l)) as Hgen.
    { intros pre l Hl. revert pre. induction Hl as [|[k' v'] l Hkv _ IHl]; intros pre;
        simpl; [constructor|].
      rewrite app_assoc. apply Forall2_app; [apply Forall2_app|].
      - destruct (String.eqb k' k) eqn:Hk; [|constructor].
        apply String.eqb_eq in Hk as ->. repeat constructor.
        simpl. by rewrite list_lookup_middle.
      - apply Forall2_fmap_l. eapply Forall2_impl; [exact Hkv|].
        intros p v Hp. simpl. rewrite list_lookup_middle by done.
        destruct p; [by rewrite item_at_nil in Hp | done].
      - specialize (IHl (pre ++ [(k', v')])).
        rewrite <- app_assoc, length_app in IHl. simpl in IHl.
        by rewrite Nat.add_1_r in IHl. }
    apply (Hgen [] items IH).
  - assert (∀ pre l,
      Forall (λ x, Forall2 (λ p v, item_at x p = Some (k, v))
                     (key_paths x k) (find_all_key x k)) l →
      Forall2 (λ p v, item_at (PList (pre ++ l)) p = Some (k, v))
        (paths_from (λ _, false) (λ x, key_paths x k) (length pre) l)
        (flat_map (λ x, find_all_key x k) l)) as Hgen.
    { intros pre l Hl. revert pre. induction Hl as [|x l Hx _ IHl]; intros pre;
        simpl; [constructor|].
      apply Forall2_app.
      - apply Forall2_fmap_l. eapply Forall2_impl; [exact Hx|].
        intros p v Hp. simpl. by rewrite list_lookup_middle.
      - specialize (IHl (pre ++ [x])).
        rewrite <- app_assoc, length_app in IHl. simpl in IHl.
        by rewrite Nat.add_1_r in IHl. }
    apply (Hgen [] elems IH).
Qed.

(** C5. [find_all_key] returns the values stored under the key at any
    depth, in document order: there is a list of paths, increasing in the
    order of a pre-order traversal (an item before what is inside its
    value, the items of a mapping and the elements of a sequence by
    position), that leads one for one to the returned values and holds
    every path to an item with the key. The result is the list of values
    with the key in the pre-order list of all items; a value is returned
    exactly when it is stored under the key somewhere; the result is empty
    when the key occurs nowhere; and a scalar sibling, in a sequence or
    under another key of a mapping, changes nothing of what is found around
    it. *)
Theorem find_all_key_spec (obj : pyval) (key_name : string) :
  (∃ paths,
     StronglySorted before paths
     ∧ Forall2 (λ p v, item_at obj p = Some (key_name, v)) paths
         (find_all_key obj key_name)
     ∧ ∀ p v, item_at obj p = Some (key_name, v) → p ∈ paths)
  ∧ find_all_key obj key_name
    = map snd (List.filter (λ kv, String.eqb kv.1 key_name) (preorder_items obj))
  ∧ (∀ v, v ∈ find_all_key obj key_name ↔ stored_under key_name v obj)
  ∧ ((∀ v, ¬ stored_under key_name v obj) → find_all_key obj key_name = [])
  ∧ (∀ before_ after s, is_scalar s = true →
       find_all_key (PList (before_ ++ s :: after)) key_name
       = find_all_key (PList before_) key_name ++ find_all_key (PList after) key_name)
  ∧ (∀ before_ after k s, is_scalar s = true → k ≠ key_name →
       find_all_key (PDict (before_ ++ (k, s) :: after)) key_name
       = find_all_key (PDict before_) key_name ++ find_all_key (PDict after) key_name).
Proof.
  split.
  { exists (key_paths obj key_name).
    split; [apply key_paths_sorted|]. split; [apply find_all_key_at_paths|].
    intros p v Hp. apply key_paths_elem_of. by exists v. }
  split; [apply find_all_key_preorder|].
  split; [intros v; apply find_all_key_elem_of|].
  split; [|split].
  - intros Hnone. destruct (find_all_key obj key_name) as [|v l] eqn:E; [done|].
    exfalso. apply (Hnone v), find_all_key_elem_of. rewrite E. by left.
  - intros before_ after s Hs. simpl. rewrite flat_map_app. simpl.
    destruct s; try discriminate; done.
  - intros before_ after k s Hs Hk. simpl. rewrite flat_map_app. simpl.
    apply String.eqb_neq in Hk. rewrite Hk.
    destruct s; try discriminate; done.
Qed.

(** ** Theorems: text normalizer *)

Lemma truthy_PStr s : truthy (PStr s) = true ↔ s ≠ "".
Proof.
  simpl. rewrite negb_true_iff. split.
  - intros H ->. by rewrite String.eqb_refl in H.
  - intros H. by apply String.eqb_neq.
Qed.

Lemma truthy_PStr_false s : truthy (PStr s) = false ↔ s = "".
Proof. simpl. rewrite negb_false_iff. apply String.eqb_eq. Qed.

(** C6. [friendly_reason] gives [None] for [None] and for the empty
    string; for a non-empty string it gives a non-empty string: the
    normalized text, or the raw string itself when the normalized text is
    empty. *)
Theorem friendly_reason_never_empty (raw : string) :
  raw ≠ "" →
  friendly_reason PNone = PNone
  ∧ friendly_reason (PStr "") = PNone
  ∧ ∃ s, friendly_reason (PStr raw) = PStr s
         ∧ s ≠ ""
         ∧ (normalize raw = "" → s = raw)
         ∧ (normalize raw ≠ "" → s = normalize raw).
Proof.
  intros Hraw. split; [done|]. split; [done|].
  unfold friendly_reason.
  assert (truthy (PStr raw) = true) as -> by by apply truthy_PStr.
  simpl negb. cbv iota. unfold py_or. simpl py_str.
  destruct (truthy (PStr (normalize raw))) eqn:Hn.
  - apply truthy_PStr in Hn. exists (normalize raw). by repeat split.
  - apply truthy_PStr_false in Hn. exists raw. by repeat split.
Qed.

Lemma friendly_reason_never_empty_witness :
  friendly_reason PNone = PNone
  ∧ friendly_reason (PStr "") = PNone
  ∧ ∃ s, friendly_reason (PStr "!ABC") = PStr s
         ∧ s ≠ ""
         ∧ (normalize "!ABC" = "" → s = "!ABC")
         ∧ (normalize "!ABC" ≠ "" → s = normalize "!ABC").
Proof. apply (friendly_reason_never_empty "!ABC"). discriminate. Defined.

(** ** Theorems: field extraction *)

Lemma dict_get_never_empty ap k :
  Forall (λ kv, never_empty kv.2 = true) ap → never_empty (dict_get ap k) = true.
Proof.
  induction 1 as [|[k' v] ap Hv _ IH]; simpl; [done|].
  by destruct (String.eqb k' k).
Qed.

Lemma py_or_never_empty x y :
  never_empty x = true → py_or x y = match x with PNone => y | _ => x end.
Proof. unfold py_or. destruct x; simpl; try done; by intros ->. Qed.

(** The chain as the code runs it, for any mapping: the first value that
    is true, else ["UNK"]. *)
Lemma airport_first_truthy std_type ap :
  airport (make_record std_type ap)
  = if truthy (dict_get ap "ARPT") then dict_get ap "ARPT"
    else if truthy (dict_get ap "Airport_Code") then dict_get ap "Airport_Code"
    else if truthy (dict_get ap "IATA") then dict_get ap "IATA"
    else PStr "UNK".
Proof. reflexivity. Qed.

(** C8. For an airport entry as [xmltodict] builds it (no value is an
    empty string, mapping or sequence), the airport of the record is the
    value under the first of ARPT, Airport_Code, IATA that is not [None],
    and ["UNK"] when there is none. *)
Theorem airport_fallback_chain (std_type : string) (ap : list (string * pyval)) :
  Forall (λ kv, never_empty kv.2 = true) ap →
  airport (make_record std_type ap)
  = first_present ap ["ARPT"; "Airport_Code"; "IATA"] (PStr "UNK").
Proof.
  intros Hap. simpl.
  rewrite !py_or_never_empty by (by apply dict_get_never_empty).
  destruct (dict_get ap "ARPT"), (dict_get ap "Airport_Code"), (dict_get ap "IATA");
    reflexivity.
Qed.

Lemma airport_fallback_chain_witness :
  airport (make_record "Ground Stop"
             [("Reason", PStr "WX"); ("ARPT", PNone); ("IATA", PStr "JFK")])
  = first_present [("Reason", PStr "WX"); ("ARPT", PNone); ("IATA", PStr "JFK")]
      ["ARPT"; "Airport_Code"; "IATA"] (PStr "UNK").
Proof.
  apply (airport_fallback_chain "Ground Stop"
           [("Reason", PStr "WX"); ("ARPT", PNone); ("IATA", PStr "JFK")]).
  repeat constructor.
Defined.

(** ** Theorems: de-duplication *)

Lemma dedup_key_hashable e :
  hashable e = true → dedup_key e = Ok (hash_fields (key_fields e)).
Proof.
  unfold hashable, dedup_key, hash_fields, key_fields. simpl.
  intros [Ha Hr]%andb_true_iff.
  destruct (airport e); try discriminate;
    destruct (py_or (reason e) (PStr "")); try discriminate; reflexivity.
Qed.

Lemma dedup_key_unhashable e :
  hashable e = false → ∃ msg, dedup_key e = Raise (TypeError msg).
Proof.
  unfold hashable, dedup_key. intros H.
  destruct (airport e); simpl in *;
    try (destruct (py_or (reason e) (PStr "")); simpl in *; try discriminate);
    eexists; reflexivity.
Qed.


Lemma dedup_loop_kept events :
  Forall (λ e, hashable e = true) events →
  ∀ seen acc, ∃ seen',
    dedup_loop (seen, acc) events = Ok (seen', acc ++ kept_of seen events).
Proof.
  induction 1 as [|e rest He _ IH]; intros seen acc; simpl.
  - exists seen. by rewrite app_nil_r.
  - unfold dedup_step. rewrite (dedup_key_hashable e He). simpl.
    destruct (decide (hash_fields (key_fields e) ∈ seen)) as [Hin|Hout]; simpl.
    + apply IH.
    + destruct (IH ({[hash_fields (key_fields e)]} ∪ seen) (acc ++ [e])) as [seen' Hloop].
      exists seen'. rewrite Hloop. by rewrite <- app_assoc.
Qed.

Lemma kept_of_sublist seen events : kept_of seen events `sublist_of` events.
Proof.
  revert seen. induction events as [|e rest IH]; intros seen; simpl; [done|].
  destruct (decide _); [by apply sublist_cons | by apply sublist_skip].
Qed.

Lemma kept_of_fresh seen events e :
  e ∈ kept_of seen events → hash_fields (key_fields e) ∉ seen.
Proof.
  revert seen. induction events as [|x rest IH]; intros seen; simpl.
  - by intros ?%elem_of_nil.
  - destruct (decide _) as [Hin|Hout]; [by apply IH|].
    intros [->|Hrest]%elem_of_cons; [done|].
    apply IH in Hrest. intros Hs. apply Hrest, elem_of_union. by right.
Qed.

Lemma kept_of_NoDup seen events :
  NoDup (map (λ e, hash_fields (key_fields e)) (kept_of seen events)).
Proof.
  revert seen. induction events as [|x rest IH]; intros seen; simpl.
  - constructor.
  - destruct (decide _) as [Hin|Hout]; [by apply IH|].
    simpl. constructor; [|by apply IH].
    intros (e & Heq & He)%list_elem_of_In%in_map_iff.
    apply list_elem_of_In, kept_of_fresh in He.
    apply He, elem_of_union. left. by apply elem_of_singleton.
Qed.



Lemma dedup_kept events :
  Forall (λ e, hashable e = true) events →
  dedup events = Ok (kept_of ∅ events).
Proof.
  intros H. unfold dedup.
  destruct (dedup_loop_kept events H ∅ []) as [seen' ->]. reflexivity.
Qed.

(** A record that cannot be hashed makes the whole step raise. *)
Lemma dedup_unhashable_raises events :
  ¬ Forall (λ e, hashable e = true) events →
  ∃ msg, dedup events = Raise (TypeError msg).
Proof.
  unfold dedup. generalize (∅ : gset dedup_key_t), ([] : list event).
  induction events as [|e rest IH]; intros seen acc Hnot.
  - destruct Hnot. constructor.
  - simpl. unfold dedup_step. destruct (hashable e) eqn:He.
    + rewrite (dedup_key_hashable e He). simpl.
      assert (¬ Forall (λ e, hashable e = true) rest) as Hrest.
      { intros Hrest. apply Hnot. by constructor. }
      destruct (decide _); simpl; by apply IH.
    + destruct (dedup_key_unhashable e He) as [msg ->]. by exists msg.
Qed.



(** ** Theorems: sorting *)

Section insertion_sort.
Context {A : Type} (lt : A → A → bool).

Lemma insert_by_Permutation x l : insert_by lt x l ≡ₚ x :: l.
Proof.
  induction l as [|y l IH]; simpl; [done|].
  destruct (lt y x); [|done].
  rewrite IH. apply Permutation_swap.
Qed.

Lemma sorted_by_Permutation l : sorted_by lt l ≡ₚ l.
Proof.
  induction l as [|x l IH]; simpl; [done|].
  by rewrite insert_by_Permutation, IH.
Qed.

(** Each element is put after the ones that are smaller than it, so two
    neighbours are never in the wrong order; this needs [lt] to be
    asymmetric on the elements at hand. *)
Lemma insert_by_Sorted (ok : A → Prop) x l :
  (∀ a b, ok a → ok b → lt a b = true → lt b a = false) →
  ok x → Forall ok l →
  Sorted (λ a b, lt b a = false) l →
  Sorted (λ a b, lt b a = false) (insert_by lt x l).
Proof.
  intros Hasym Hx Hl Hs. induction Hs as [|y l Hs IH Hhd]; simpl.
  - by repeat constructor.
  - apply Forall_cons in Hl as [Hy Hl]. destruct (lt y x) eqn:Hyx.
    + constructor; [by apply IH|].
      destruct l as [|z l]; simpl.
      * constructor. by apply Hasym.
      * apply Forall_cons in Hl as [Hz Hl].
        destruct (lt z x); constructor; [by inversion Hhd | by apply Hasym].
    + constructor; [by constructor | by constructor].
Qed.

Lemma sorted_by_Sorted (ok : A → Prop) l :
  (∀ a b, ok a → ok b → lt a b = true → lt b a = false) →
  Forall ok l →
  Sorted (λ a b, lt b a = false) (sorted_by lt l).
Proof.
  intros Hasym Hl. induction Hl as [|x l Hx Hl IH]; simpl; [constructor|].
  apply (insert_by_Sorted ok); try done.
  by rewrite sorted_by_Permutation.
Qed.

(** Stability: the elements of a class whose members never compare as
    smaller to one another keep their order. *)
Lemma insert_by_stable (c : A → bool) x l :
  (∀ a b, c a = true → c b = true → lt a b = false) →
  List.filter c (insert_by lt x l) = List.filter c (x :: l).
Proof.
  intros Hc. induction l as [|y l IH]; [done|].
  simpl insert_by. destruct (lt y x) eqn:Hyx; [|done].
  simpl. simpl in IH. rewrite IH.
  destruct (c x) eqn:Hcx, (c y) eqn:Hcy; try done.
  by rewrite Hc in Hyx.
Qed.

Lemma sorted_by_stable (c : A → bool) l :
  (∀ a b, c a = true → c b = true → lt a b = false) →
  List.filter c (sorted_by lt l) = List.filter c l.
Proof.
  intros Hc. induction l as [|x l IH]; [done|].
  simpl sorted_by. rewrite insert_by_stable by done. simpl. by rewrite IH.
Qed.

End insertion_sort.

Lemma Sorted_adjacent {A} (R : A → A → Prop) l i a b :
  Sorted R l → l !! i = Some a → l !! (S i) = Some b → R a b.
Proof.
  intros Hs. revert i. induction Hs as [|x l Hs IH Hhd]; intros i Ha Hb; [done|].
  destruct i as [|i]; simpl in *.
  - injection Ha as ->. destruct l as [|y l]; [done|].
    simpl in Hb. injection Hb as ->. by inversion Hhd.
  - by apply (IH i).
Qed.

Lemma key_lt_text x e :
  text_airport x → text_airport e →
  key_lt (sort_key x) (sort_key e) = Ok (event_ltb x e).
Proof.
  intros [a Ha] [b Hb]. unfold event_ltb, key_lt, sort_key. simpl.
  rewrite Ha, Hb. by destruct (_ =? _)%Z.
Qed.

Lemma insert_event_text e sorted :
  text_airport e → Forall text_airport sorted →
  insert_event e sorted = Ok (insert_by event_ltb e sorted).
Proof.
  intros He. induction 1 as [|x sorted Hx _ IH]; simpl; [done|].
  rewrite (key_lt_text x e Hx He). simpl.
  destruct (event_ltb x e); [|done]. by rewrite IH.
Qed.

Lemma sort_events_text events :
  Forall text_airport events →
  sort_events events = Ok (sorted_by event_ltb events).
Proof.
  induction 1 as [|e events He Hall IH]; simpl; [done|].
  rewrite IH. simpl. apply insert_event_text; [done|].
  by rewrite sorted_by_Permutation.
Qed.

Lemma string_ltb_asym a b : String.ltb a b = true → String.ltb b a = false.
Proof.
  unfold String.ltb. rewrite (String.compare_antisym b a).
  by destruct (a ?= b)%string.
Qed.

Lemma string_ltb_false_leb a b : String.ltb b a = false → String.leb a b = true.
Proof.
  unfold String.ltb, String.leb. rewrite (String.compare_antisym a b).
  by destruct (b ?= a)%string.
Qed.

Lemma string_ltb_irrefl a : String.ltb a a = false.
Proof.
  destruct (String.ltb a a) eqn:H; [|done].
  by rewrite (string_ltb_asym a a H) in H.
Qed.

Lemma event_ltb_asym x e :
  text_airport x → text_airport e → event_ltb x e = true → event_ltb e x = false.
Proof.
  intros [a Ha] [b Hb]. unfold event_ltb, key_lt, sort_key. simpl.
  rewrite Ha, Hb, (Z.eqb_sym (- delay_or_0 e) (- delay_or_0 x)).
  destruct (_ =? _)%Z eqn:Heq.
  - apply string_ltb_asym.
  - intros Hlt%Z.ltb_lt. apply Z.ltb_ge. lia.
Qed.

Lemma event_ltb_false e1 e2 a1 a2 :
  airport e1 = PStr a1 → airport e2 = PStr a2 →
  event_ltb e2 e1 = false →
  (delay_or_0 e2 < delay_or_0 e1)%Z
  ∨ (delay_or_0 e1 = delay_or_0 e2 ∧ String.leb a1 a2 = true).
Proof.
  intros H1 H2. unfold event_ltb, key_lt, sort_key. simpl. rewrite H1, H2.
  destruct (_ =? _)%Z eqn:Heq.
  - apply Z.eqb_eq in Heq. intros Hlt%string_ltb_false_leb. right. split; [lia | done].
  - apply Z.eqb_neq in Heq. intros Hlt%Z.ltb_ge. left. lia.
Qed.

(** The number the sort key is built from is the delay of the record, and
    0 for a record without one. *)
Lemma delay_or_0_avg_delay e : delay_or_0 e = default 0%Z (avg_delay e).
Proof. unfold delay_or_0. by destruct (avg_delay e). Qed.

Lemma with_sort_key_class d a x e :
  ((default 0%Z (avg_delay x) =? d)%Z && bool_decide (airport_text x = Some a)) = true →
  ((default 0%Z (avg_delay e) =? d)%Z && bool_decide (airport_text e = Some a)) = true →
  event_ltb x e = false.
Proof.
  rewrite <- !delay_or_0_avg_delay.
  intros [Hdx Hax]%andb_true_iff [Hde Hae]%andb_true_iff.
  apply Z.eqb_eq in Hdx, Hde. apply bool_decide_eq_true in Hax, Hae.
  unfold airport_text in *. unfold event_ltb, key_lt, sort_key. simpl.
  destruct (airport x); try discriminate. destruct (airport e); try discriminate.
  injection Hax as ->. injection Hae as ->. rewrite Hdx, Hde, Z.eqb_refl.
  apply string_ltb_irrefl.
Qed.

(** The sort, on records whose airports are text: it returns, the result
    is a permutation, neighbours are in order, and records of equal sort
    key keep their order. *)
Lemma sort_events_spec events :
  Forall text_airport events →
  ∃ out, sort_events events = Ok out
    ∧ out ≡ₚ events
    ∧ (∀ i e1 e2, out !! i = Some e1 → out !! (S i) = Some e2 →
         event_ltb e2 e1 = false)
    ∧ (∀ d a, with_sort_key d a out = with_sort_key d a events).
Proof.
  intros Htext. exists (sorted_by event_ltb events).
  split; [by apply sort_events_text|].
  split; [apply sorted_by_Permutation|]. split.
  - intros i e1 e2 H1 H2.
    eapply (Sorted_adjacent (λ a b, event_ltb b a = false)); [|done..].
    apply (sorted_by_Sorted event_ltb text_airport); [|done].
    intros a b. apply event_ltb_asym.
  - intros d a. unfold with_sort_key. apply sorted_by_stable.
    intros x e. apply with_sort_key_class.
Qed.

(** ** Theorems: extraction *)

Lemma for_each_elem_of {A B} (f : A → result (list B)) l ys y :
  for_each f l = Ok ys → y ∈ ys →
  ∃ x zs, x ∈ l ∧ f x = Ok zs ∧ y ∈ zs.
Proof.
  revert ys. induction l as [|x l IH]; intros ys; simpl.
  - intros [= <-] ?%elem_of_nil. done.
  - destruct (f x) as [zs|] eqn:Hfx; simpl; [|done].
    destruct (for_each f l) as [ws|] eqn:Hl; simpl; [|done].
    intros [= <-] [Hy|Hy]%elem_of_app.
    + exists x, zs. split; [by left | done].
    + destruct (IH ws eq_refl Hy) as (x' & zs' & Hx' & Hf & Hin).
      exists x', zs'. split; [by right | done].
Qed.

Lemma py_or_truthy x y : truthy y = true → truthy (py_or x y) = true.
Proof. intros Hy. unfold py_or. by destruct (truthy x) eqn:Hx. Qed.

Lemma make_record_airport_truthy std_type ap :
  truthy (airport (make_record std_type ap)) = true.
Proof. simpl. by repeat apply py_or_truthy. Qed.

(** Where a record comes from: a delay-type block that is a mapping, whose
    name resolved to the record's type, and an airport entry. *)
Lemma extract_events_origin data events e :
  extract_events data = Ok events → e ∈ events →
  ∃ dt_item ap,
    delay_type_item data dt_item
    ∧ std_type_of (get_if_dict dt_item "Name") = Ok (type e)
    ∧ e = make_record (type e) ap.
Proof.
  unfold extract_events. intros Hext He.
  destruct (for_each_elem_of _ _ _ _ Hext He) as (dt & evs & Hdt & Hitems & Hin).
  destruct (for_each_elem_of _ _ _ _ Hitems Hin) as (dt_item & evs' & Hitem & Hev & Hin').
  unfold events_of_item in Hev.
  destruct (std_type_of (get_if_dict dt_item "Name")) as [std|] eqn:Hstd; [|done].
  simpl in Hev. destruct dt_item as [| | items |]; injection Hev as <-;
    try (by apply elem_of_nil in Hin').
  apply list_elem_of_In, in_flat_map in Hin' as ([k v] & _ & Hin').
  simpl in Hin'. destruct (endswith k "_List"); [|done].
  unfold events_of_list in Hin'.
  apply in_flat_map in Hin' as (entry & _ & Hin').
  destruct entry as [| | ap |]; try done.
  destruct Hin' as [<-|[]].
  exists (PDict items), ap. split; [|done].
  exists dt. split; [|done]. by apply find_all_key_elem_of.
Qed.

Lemma alias_lookup_Some table k v :
  alias_lookup table k = Some v → v ∈ map snd table.
Proof.
  induction table as [|[k' v'] table IH]; simpl; [done|].
  destruct (String.eqb k' k).
  - intros [= ->]. by left.
  - intros H. right. by apply IH.
Qed.

(** The three ways a type comes about. *)
Lemma std_type_of_cases name t :
  std_type_of name = Ok t →
  t ∈ map snd TYPE_ALIASES
  ∨ t = "Event"
  ∨ (name = PStr t ∧ alias_lookup TYPE_ALIASES t = None).
Proof.
  unfold std_type_of, py_or. destruct (truthy name) eqn:Hname.
  - destruct name as [| s | |]; try done.
    destruct (alias_lookup TYPE_ALIASES s) as [v|] eqn:Hv; intros [= <-].
    + left. by eapply alias_lookup_Some.
    + right. right. done.
  - simpl. intros [= <-]. right. by left.
Qed.

Lemma dedup_Ok_hashable events deduped :
  dedup events = Ok deduped → Forall (λ e, hashable e = true) events.
Proof.
  intros Hd. destruct (decide (Forall (λ e, hashable e = true) events)) as [|Hnot]; [done|].
  destruct (dedup_unhashable_raises events Hnot) as [msg Hr]. congruence.
Qed.

Lemma dedup_Ok_sublist events deduped :
  dedup events = Ok deduped → deduped `sublist_of` events.
Proof.
  intros Hd. pose proof (dedup_Ok_hashable _ _ Hd) as Hh.
  rewrite (dedup_kept events Hh) in Hd. injection Hd as <-. apply kept_of_sublist.
Qed.

(** After extraction and de-duplication every airport is text. *)
Lemma deduped_text_airport data events deduped :
  extract_events data = Ok events → dedup events = Ok deduped →
  Forall text_airport deduped.
Proof.
  intros Hext Hd. apply Forall_forall. intros e He.
  assert (e ∈ events) as Hin.
  { eapply elem_of_sublist; [done | by eapply dedup_Ok_sublist]. }
  pose proof (dedup_Ok_hashable _ _ Hd) as Hh.
  rewrite Forall_forall in Hh. specialize (Hh e Hin).
  destruct (extract_events_origin _ _ _ Hext Hin) as (dt_item & ap & _ & _ & Heq).
  pose proof (make_record_airport_truthy (type e) ap) as Ht. rewrite <- Heq in Ht.
  unfold hashable in Hh. apply andb_true_iff in Hh as [Ha _].
  unfold text_airport. destruct (airport e) as [| a | |]; try done. by exists a.
Qed.

(** The sort never raises on what de-duplication returns. *)
Lemma parse_events_returns data events deduped :
  extract_events data = Ok events → dedup events = Ok deduped →
  ∃ out, parse_events data = Ok out.
Proof.
  intros Hext Hd. unfold parse_events. rewrite Hext. simpl. rewrite Hd. simpl.
  destruct (sort_events_spec deduped (deduped_text_airport _ _ _ Hext Hd)) as (out & -> & _).
  by exists out.
Qed.

Lemma parse_events_stages data out :
  parse_events data = Ok out →
  ∃ events deduped,
    extract_events data = Ok events ∧ dedup events = Ok deduped
    ∧ sort_events deduped = Ok out.
Proof.
  unfold parse_events.
  destruct (extract_events data) as [events|] eqn:Hext; simpl; [|done].
  destruct (dedup events) as [deduped|] eqn:Hd; simpl; [|done].
  intros Hs. by exists events, deduped.
Qed.

(** C2. In the list [parse_events_from_xml] returns, every record has a
    text airport and of two neighbours the first has the greater
    [avg_delay] (a missing one counts as 0), or the two are equal and the
    first airport is not after the second in the order of strings; the
    list is a permutation of the de-duplicated list, and the records of
    equal delay and airport stand in it in the order they had there. *)
Theorem final_order (xmltodict_parse : string → result pyval) (xml_text : string)
    (out : list event) :
  parse_events_from_xml xmltodict_parse xml_text = Ok out →
  (∀ i e1 e2, out !! i = Some e1 → out !! (S i) = Some e2 →
     ∃ a1 a2, airport e1 = PStr a1 ∧ airport e2 = PStr a2
       ∧ ((default 0 (avg_delay e2) < default 0 (avg_delay e1))%Z
          ∨ (default 0%Z (avg_delay e1) = default 0%Z (avg_delay e2)
             ∧ String.leb a1 a2 = true)))
  ∧ ∃ data events deduped,
      xmltodict_parse xml_text = Ok data
      ∧ extract_events data = Ok events
      ∧ dedup events = Ok deduped
      ∧ out ≡ₚ deduped
      ∧ ∀ delay code_, with_sort_key delay code_ out = with_sort_key delay code_ deduped.
Proof.
  unfold parse_events_from_xml.
  destruct (xmltodict_parse xml_text) as [data|] eqn:Hparse; simpl; [|done].
  intros (events & deduped & Hext & Hd & Hsort)%parse_events_stages.
  pose proof (deduped_text_airport _ _ _ Hext Hd) as Htext.
  destruct (sort_events_spec deduped Htext) as (out' & Hs & Hperm & Hadj & Hstable).
  rewrite Hsort in Hs. injection Hs as <-. split.
  - intros i e1 e2 H1 H2.
    assert (Forall text_airport out) as Hout by by rewrite Hperm.
    rewrite Forall_forall in Hout.
    destruct (Hout e1) as [a1 Ha1]; [by eapply list_elem_of_lookup_2|].
    destruct (Hout e2) as [a2 Ha2]; [by eapply list_elem_of_lookup_2|].
    exists a1, a2. split; [done|]. split; [done|].
    rewrite <- !delay_or_0_avg_delay.
    eapply event_ltb_false; [done..|]. by eapply Hadj.
  - by exists data, events, deduped.
Qed.

(** C3 (as amended). The type of every record [parse_events_from_xml]
    returns is a value of the alias table, or ["Event"], or the name of one
    of the feed's delay-type blocks, unchanged, when that name is no key of
    the table. *)
Theorem event_type_vocabulary (xmltodict_parse : string → result pyval)
    (xml_text : string) (out : list event) (e : event) :
  parse_events_from_xml xmltodict_parse xml_text = Ok out →
  e ∈ out →
  type e ∈ map snd TYPE_ALIASES
  ∨ type e = "Event"
  ∨ (alias_lookup TYPE_ALIASES (type e) = None
     ∧ ∃ data dt_item,
         xmltodict_parse xml_text = Ok data
         ∧ delay_type_item data dt_item
         ∧ get_if_dict dt_item "Name" = PStr (type e)).
Proof.
  unfold parse_events_from_xml.
  destruct (xmltodict_parse xml_text) as [data|] eqn:Hparse; simpl; [|done].
  intros (events & deduped & Hext & Hd & Hsort)%parse_events_stages He.
  pose proof (deduped_text_airport _ _ _ Hext Hd) as Htext.
  destruct (sort_events_spec deduped Htext) as (out' & Hs & Hperm & _).
  rewrite Hsort in Hs. injection Hs as <-.
  assert (e ∈ events) as Hin.
  { eapply elem_of_sublist; [|by eapply dedup_Ok_sublist]. by rewrite <- Hperm. }
  destruct (extract_events_origin _ _ _ Hext Hin) as (dt_item & ap & Hitem & Hstd & _).
  destruct (std_type_of_cases _ _ Hstd) as [Hv | [Hev | [Hname Hnone]]].
  - by left.
  - right. by left.
  - right. right. split; [done|]. by exists data, dt_item.
Qed.

Lemma sample_feed_events :
  parse_events_from_xml sample_parse sample_xml = Ok sample_events.
Proof. vm_compute. reflexivity. Qed.

Lemma final_order_witness :
  (∀ i e1 e2, delays_events !! i = Some e1 → delays_events !! (S i) = Some e2 →
     ∃ a1 a2, airport e1 = PStr a1 ∧ airport e2 = PStr a2
       ∧ ((default 0 (avg_delay e2) < default 0 (avg_delay e1))%Z
          ∨ (default 0%Z (avg_delay e1) = default 0%Z (avg_delay e2)
             ∧ String.leb a1 a2 = true)))
  ∧ ∃ data events deduped,
      delays_parse delays_xml = Ok data
      ∧ extract_events data = Ok events
      ∧ dedup events = Ok deduped
      ∧ delays_events ≡ₚ deduped
      ∧ ∀ delay code_,
          with_sort_key delay code_ delays_events = with_sort_key delay code_ deduped.
Proof.
  apply (final_order delays_parse delays_xml delays_events).
  vm_compute. reflexivity.
Defined.

Lemma event_type_vocabulary_witness :
  type (sample_event "Foo" "BOS" 45 PNone) ∈ map snd TYPE_ALIASES
  ∨ type (sample_event "Foo" "BOS" 45 PNone) = "Event"
  ∨ (alias_lookup TYPE_ALIASES (type (sample_event "Foo" "BOS" 45 PNone)) = None
     ∧ ∃ data dt_item,
         sample_parse sample_xml = Ok data
         ∧ delay_type_item data dt_item
         ∧ get_if_dict dt_item "Name"
           = PStr (type (sample_event "Foo" "BOS" 45 PNone))).
Proof.
  apply (event_type_vocabulary sample_parse sample_xml sample_events
           (sample_event "Foo" "BOS" 45 PNone)).
  - vm_compute. reflexivity.
  - unfold sample_events. repeat constructor.
Defined.

(** C3, counterexample. The second block of the sample feed is named
    "Foo", and its record keeps that name as its type, which is neither a
    value of the alias table nor "Event". *)
Lemma unknown_name_passes_through :
  ∃ out e,
    parse_events_from_xml sample_parse sample_xml = Ok out
    ∧ e ∈ out
    ∧ type e = "Foo"
    ∧ ¬ (type e ∈ map snd TYPE_ALIASES ∨ type e = "Event").
Proof.
  exists sample_events, (sample_event "Foo" "BOS" 45 PNone).
  split; [apply sample_feed_events|].
  split; [unfold sample_events; repeat constructor|].
  split; [reflexivity|].
  intros [Hin|Heq]; [|discriminate].
  simpl in Hin. repeat (apply elem_of_cons in Hin as [Heq|Hin]; [discriminate|]).
  by apply elem_of_nil in Hin.
Qed.

(** ** Theorems: the shouted codes *)

Lemma string_app_nil_l (s : string) : "" +:+ s = s.
Proof. reflexivity. Qed.

Lemma string_app_cons c (s t : string) : String c s +:+ t = String c (s +:+ t).
Proof. reflexivity. Qed.

Lemma string_app_nil_r (s : string) : s +:+ "" = s.
Proof. induction s as [|c s IH]; [done|]. by rewrite string_app_cons, IH. Qed.

Lemma string_app_assoc (a b c : string) : (a +:+ b) +:+ c = a +:+ (b +:+ c).
Proof. induction a as [|x a IH]; [done|]. by rewrite !string_app_cons, IH. Qed.

Lemma not_blank_space c : not_blank c = negb (Ascii.eqb " " c).
Proof. by destruct c as [[] [] [] [] [] [] [] []]. Qed.

Lemma is_word_not_blank c : is_word c = true → not_blank c = true.
Proof. by destruct c as [[] [] [] [] [] [] [] []]. Qed.

Lemma flat_map_head {A B} (f : A → list B) x l y tl :
  f x = y :: tl → flat_map f (x :: l) = y :: (tl ++ flat_map f l).
Proof. intros H. simpl. by rewrite H. Qed.

(** A starred class goes as far as the class holds. *)
Lemma star_step_head (step : cursor → list cursor) p fuel :
  (∀ prev s, step (prev, s) = match s with
                              | String x t => if p x : bool then [(Some x, t)] else []
                              | "" => @nil cursor
                              end) →
  ∀ prev s, (String.length s ≤ fuel)%nat →
  ∃ prev' tl, star_ends step fuel (prev, s) = (prev', lstrip p s) :: tl.
Proof.
  intros Hstep. induction fuel as [|fuel IH]; intros prev s Hlen.
  - destruct s; [|simpl in Hlen; lia]. by exists prev, [].
  - cbn [star_ends]. rewrite Hstep. destruct s as [|c t]; [by exists prev, []|].
    cbn [lstrip]. destruct (p c) eqn:Hc; [|by exists prev, []].
    cbn [flat_map fst snd].
    destruct (Nat.ltb_spec (String.length t) (String.length (String c t))) as [_|Hge];
      [|simpl in Hge; lia].
    destruct (IH (Some c) t) as (prev' & tl & ->); [simpl in Hlen; lia|].
    eexists _, _. reflexivity.
Qed.

Lemma star_class_head ic p prev s :
  ∃ prev' tl, ends ic (Star (Cls p)) (prev, s) = (prev', lstrip p s) :: tl.
Proof.
  cbn [ends snd]. apply (star_step_head (ends ic (Cls p)) p); [|done].
  intros prev0 s0. reflexivity.
Qed.

Lemma lstrip_word_blank t : lstrip not_blank (lstrip is_word t) = lstrip not_blank t.
Proof.
  induction t as [|c t IH]; [done|]. simpl.
  destruct (is_word c) eqn:Hw.
  - by rewrite (is_word_not_blank c Hw).
  - done.
Qed.

Lemma after_code_lstrip t :
  after_code t = match lstrip not_blank t with
                 | String c t' => if Ascii.eqb " " c then t' else String c t'
                 | "" => ""
                 end.
Proof.
  induction t as [|c t IH]; [done|]. cbn [after_code lstrip].
  destruct (not_blank c) eqn:Hc; [done|].
  rewrite not_blank_space in Hc. by destruct (Ascii.eqb " " c).
Qed.

Lemma after_code_length t : (String.length (after_code t) ≤ String.length t)%nat.
Proof.
  induction t as [|c t IH]; simpl; [lia|]. destruct (not_blank c); simpl; lia.
Qed.

(** Where the pattern matches: at an exclamation mark followed by a word
    character; the match ends after the next space. *)
Lemma ends_shouty_code_match prev w t :
  is_word w = true →
  ∃ prev' tl,
    ends false shouty_code (prev, String "!" (String w t)) = (prev', after_code t) :: tl.
Proof.
  intros Hw. unfold shouty_code, Plus.
  destruct (star_class_head false is_word (Some w) t) as (p1 & tl1 & Hword).
  destruct (star_class_head false not_blank p1 (lstrip is_word t)) as (p2 & tl2 & Hrest).
  assert (∃ p3 tl3, ends false (Cat (Star (Cls not_blank)) (Opt (Chr " ")))
                      (p1, lstrip is_word t) = (p3, after_code t) :: tl3)
    as (p3 & tl3 & Htail).
  { change (ends false (Cat ?a ?b) ?c) with (flat_map (ends false b) (ends false a c)).
    rewrite Hrest, lstrip_word_blank, after_code_lstrip.
    destruct (lstrip not_blank t) as [|c t']; [by eexists _, _|].
    cbn [flat_map ends fst snd chr_matches].
    destruct (Ascii.eqb " " c); by eexists _, _. }
  change (ends false (Cat ?a ?b) ?c) with (flat_map (ends false b) (ends false a c)).
  change (ends false (Chr "!") (prev, String "!" (String w t)))
    with [(Some "!"%char, String w t)].
  cbn [flat_map]. rewrite app_nil_r.
  change (ends false (Cat ?a ?b) ?c) with (flat_map (ends false b) (ends false a c)).
  change (ends false (Cat ?a ?b) ?c) with (flat_map (ends false b) (ends false a c)).
  replace (ends false (Cls is_word) (Some "!"%char, String w t)) with [(Some w, t)]
    by (cbn [ends fst snd]; by rewrite Hw).
  cbn [flat_map]. rewrite app_nil_r, Hword. cbn [flat_map]. rewrite Htail.
  by eexists _, _.
Qed.

Lemma ends_shouty_code_none prev s :
  match s with
  | String c t => Ascii.eqb c "!" && word_after (None, t)
  | "" => false
  end = false →
  ends false shouty_code (prev, s) = [].
Proof.
  unfold shouty_code, Plus. destruct s as [|c t]; [done|].
  cbn [ends fst snd chr_matches].
  destruct (Ascii.eqb "!" c) eqn:Hc; [|done].
  apply Ascii.eqb_eq in Hc as <-. rewrite Ascii.eqb_refl.
  unfold word_after. cbn [andb fst snd flat_map].
  destruct t as [|w t]; [done|]. by intros ->.
Qed.

Lemma drop_codes_inside t : drop_codes true t = drop_codes false (after_code t).
Proof.
  induction t as [|c t IH]; [done|]. simpl. by destruct (not_blank c).
Qed.

(** Passing the characters of a match leaves the scan at what follows the
    code. *)
Lemma sub_scan_skip_code ic r repl_ t : ∀ prev,
  ∃ prev', sub_scan ic r repl_ (String.length t - String.length (after_code t)) prev t
           = sub_scan ic r repl_ 0 prev' (after_code t).
Proof.
  induction t as [|c t IH]; intros prev; [by exists prev|].
  simpl after_code. destruct (not_blank c).
  - pose proof (after_code_length t).
    replace (String.length (String c t) - String.length (after_code t))
      with (S (String.length t - String.length (after_code t))) by (simpl; lia).
    simpl. apply IH.
  - replace (String.length (String c t) - String.length t) with 1 by (simpl; lia).
    by exists (Some c).
Qed.

Lemma drop_codes_start w t :
  is_word w = true →
  drop_codes false (String "!" (String w t)) = drop_codes true (String w t).
Proof.
  intros Hw.
  change (drop_codes false (String "!" (String w t)))
    with (if Ascii.eqb "!" "!" && word_after (None, String w t)
          then drop_codes true (String w t)
          else String "!" (drop_codes false (String w t))).
  unfold word_after. cbn [fst snd]. by rewrite Ascii.eqb_refl, Hw.
Qed.

Lemma sub_scan_match ic r repl_ prev c t p s' tl k :
  ends ic r (prev, String c t) = (p, s') :: tl →
  (String.length (String c t) - String.length s')%nat = S k →
  sub_scan ic r repl_ 0 prev (String c t) = repl_ +:+ sub_scan ic r repl_ k (Some c) t.
Proof. intros Hends Hk. cbn [sub_scan]. by rewrite Hends, Hk. Qed.

Lemma sub_scan_no_match ic r repl_ prev c t :
  ends ic r (prev, String c t) = [] →
  sub_scan ic r repl_ 0 prev (String c t)
  = String c (sub_scan ic r repl_ 0 (Some c) t).
Proof. intros Hends. cbn [sub_scan]. by rewrite Hends. Qed.

(** [re.sub] with the pattern of the codes is the scanner [drop_codes]. *)
Lemma sub_scan_shouty_code n : ∀ s prev,
  (String.length s ≤ n)%nat →
  sub_scan false shouty_code "" 0 prev s = drop_codes false s.
Proof.
  induction n as [|n IH]; intros s prev Hlen.
  - destruct s; [done | simpl in Hlen; lia].
  - destruct s as [|c t]; [done|].
    destruct (Ascii.eqb c "!" && word_after (None, t)) eqn:Hstart.
    + apply andb_true_iff in Hstart as [->%Ascii.eqb_eq Hw].
      destruct t as [|w t]; [done|]. unfold word_after in Hw. cbn [fst snd] in Hw.
      destruct (ends_shouty_code_match prev w t Hw) as (p & tl & Hends).
      pose proof (after_code_length t) as Hshort.
      assert (after_code (String w t) = after_code t) as Hafter.
      { cbn [after_code]. by rewrite (is_word_not_blank w Hw). }
      rewrite (sub_scan_match _ _ _ _ _ _ _ _ _
                 (String.length (String w t) - String.length (after_code (String w t)))
                 Hends).
      2:{ rewrite Hafter. cbn [String.length]. lia. }
      destruct (sub_scan_skip_code false shouty_code "" (String w t) (Some "!"%char))
        as [prev' ->].
      rewrite string_app_nil_l, IH.
      * by rewrite (drop_codes_start w t Hw), (drop_codes_inside (String w t)).
      * rewrite Hafter. cbn [String.length] in Hlen. lia.
    + rewrite (sub_scan_no_match _ _ _ _ _ _ (ends_shouty_code_none prev (String c t) Hstart)).
      cbn [drop_codes]. rewrite Hstart. rewrite IH; [done | cbn [String.length] in Hlen; lia].
Qed.

Lemma re_sub_shouty_code s : re_sub false shouty_code "" s = drop_codes false s.
Proof. unfold re_sub. by apply (sub_scan_shouty_code (String.length s)). Qed.

Lemma drop_codes_token tok rest :
  all_chars not_blank tok = true →
  drop_codes true (tok +:+ rest) = drop_codes true rest.
Proof.
  induction tok as [|c tok IH]; [done|].
  cbn [all_chars]. intros [Hc Htok]%andb_true_iff.
  rewrite string_app_cons. cbn [drop_codes]. rewrite Hc. by apply IH.
Qed.

Lemma drop_codes_word w t :
  is_word w = true → drop_codes true (String w t) = drop_codes true t.
Proof. intros Hw. cbn [drop_codes]. by rewrite (is_word_not_blank w Hw). Qed.

Lemma drop_codes_code inside w tok rest :
  is_word w = true → all_chars not_blank tok = true →
  drop_codes inside (String "!" (String w (tok +:+ rest)))
  = drop_codes true rest.
Proof.
  intros Hw Htok. destruct inside.
  - change (drop_codes true (String "!" ?t)) with (drop_codes true t).
    by rewrite drop_codes_word, drop_codes_token.
  - by rewrite drop_codes_start, drop_codes_word, drop_codes_token.
Qed.

Lemma drop_codes_before inside pre w tok rest :
  is_word w = true → all_chars not_blank tok = true →
  drop_codes inside (pre +:+ String "!" (String w (tok +:+ rest)))
  = drop_codes inside pre +:+ drop_codes true rest.
Proof.
  intros Hw Htok. revert inside. induction pre as [|c pre IH]; intros inside.
  - rewrite string_app_nil_l. cbn [drop_codes]. rewrite string_app_nil_l.
    by apply drop_codes_code.
  - rewrite string_app_cons. cbn [drop_codes]. destruct inside.
    + destruct (not_blank c); apply IH.
    + assert (word_after (None, pre +:+ String "!" (String w (tok +:+ rest)))
              = word_after (None, pre)) as ->.
      { by destruct pre. }
      destruct (Ascii.eqb c "!" && word_after (None, pre)); [apply IH|].
      by rewrite string_app_cons, IH.
Qed.

(** C7 (as amended). An exclamation mark that is followed by a word
    character (a letter, a digit or the underscore) is removed, wherever
    it stands, together with the characters up to the next space and that
    one space; at the end of the text it is removed without one. The
    substitution table is applied to the text that is left, stripped. *)
Theorem shouted_codes_removed (pre tok post : string) (w : ascii) :
  is_word w = true →
  all_chars not_blank tok = true →
  re_sub false shouty_code "" (pre +:+ String "!" (String w tok) +:+ " " +:+ post)
    = re_sub false shouty_code "" pre +:+ re_sub false shouty_code "" post
  ∧ re_sub false shouty_code "" (pre +:+ String "!" (String w tok))
    = re_sub false shouty_code "" pre
  ∧ ∀ txt, normalize txt
           = squash (apply_repl repl (strip (re_sub false shouty_code "" txt))).
Proof.
  intros Hw Htok. rewrite !re_sub_shouty_code. split; [|split; [|done]].
  - rewrite !string_app_cons, string_app_nil_l.
    by rewrite (drop_codes_before false pre w tok (String " " post) Hw Htok).
  - rewrite <- (string_app_nil_r tok) at 1.
    rewrite (drop_codes_before false pre w tok "" Hw Htok).
    cbn [drop_codes]. by rewrite string_app_nil_r.
Qed.

Lemma shouted_codes_removed_witness :
  re_sub false shouty_code "" ("wind " +:+ String "!" (String "J" "FK/12") +:+ " " +:+ "low ceilings")
    = re_sub false shouty_code "" "wind " +:+ re_sub false shouty_code "" "low ceilings"
  ∧ re_sub false shouty_code "" ("wind " +:+ String "!" (String "J" "FK/12"))
    = re_sub false shouty_code "" "wind "
  ∧ ∀ txt, normalize txt
           = squash (apply_repl repl (strip (re_sub false shouty_code "" txt))).
Proof. apply (shouted_codes_removed "wind " "FK/12" "low ceilings" "J"); reflexivity. Defined.

(** C7, counterexample. In "!#1 GDP" the token "!#1" is an exclamation
    mark followed by non-space characters, and it stays, because "#" is no
    word character; and of "!!abc def" only "!abc " goes. *)
Lemma code_without_word_character_stays :
  re_sub false shouty_code "" "!#1 GDP" = "!#1 GDP"
  ∧ friendly_reason (PStr "!#1 GDP") = PStr "!#1 Ground Delay Program"
  ∧ re_sub false shouty_code "" "!!abc def" = "!def".
Proof. vm_compute. done. Qed.

(** ** Theorems: the program *)

Lemma string_length_app (a b : string) :
  String.length (a +:+ b) = (String.length a + String.length b)%nat.
Proof. induction a as [|c a IH]; [done|]. rewrite string_app_cons. simpl. by rewrite IH. Qed.

Lemma path_join_ne dir name : path_join dir name ≠ dir.
Proof.
  intros H. apply (f_equal String.length) in H. unfold path_join in H.
  rewrite !string_length_app in H. simpl in H. lia.
Qed.

Lemma write_accepted_same dir name w1 w :
  files w1 = files w → dirs w1 = dirs w → denied w1 = denied w →
  write_accepted dir name w1 = write_accepted dir name w.
Proof. unfold write_accepted. by intros -> -> ->. Qed.

(** A write the file system accepts leaves the state [after_write]; a
    write it does not accept raises [OSError]. *)
Lemma write_html_accepted html_text dir name w :
  write_accepted dir name w = true →
  write_html html_text dir name w = Ok (after_write html_text dir name w).
Proof.
  unfold write_accepted, write_html, makedirs, open_write, after_write.
  intros [[Hdir Hpath]%andb_true_iff Hden]%andb_true_iff.
  apply negb_true_iff, bool_decide_eq_false in Hpath.
  apply negb_true_iff, bool_decide_eq_false in Hden.
  destruct (decide (dir ∈ dirs w)) as [Hin|Hnot]; cbn [mbind result_bind].
  - rewrite decide_False, decide_False by done. do 2 f_equal.
    apply set_eq. intros d. rewrite elem_of_union, elem_of_singleton.
    split; [by right | by intros [-> | ?]].
  - rewrite bool_decide_eq_false_2 in Hdir by done. cbn [orb] in Hdir.
    apply andb_true_iff in Hdir as [Hfile Hdenied].
    apply negb_true_iff, bool_decide_eq_false in Hfile.
    apply negb_true_iff, bool_decide_eq_false in Hdenied.
    rewrite decide_False, decide_False by done. cbn [mbind result_bind dirs denied files].
    rewrite decide_False, decide_False; [done | done |].
    rewrite elem_of_union, elem_of_singleton. intros [Heq | Hin]; [|done].
    by apply path_join_ne in Heq.
Qed.

Lemma write_html_refused html_text dir name w :
  write_accepted dir name w = false →
  ∃ msg, write_html html_text dir name w = Raise (OSError msg).
Proof.
  intros Hacc. destruct (write_html html_text dir name w) as [w'|e] eqn:Hw.
  - exfalso. revert Hacc Hw.
    unfold write_accepted, write_html, makedirs, open_write.
    destruct (decide (dir ∈ dirs w)) as [Hin|Hnot]; cbn [mbind result_bind].
    + rewrite (bool_decide_eq_true_2 _ Hin). cbn [orb andb].
      destruct (decide (path_join dir name ∈ dirs w)) as [|Hp]; [done|].
      destruct (decide (path_join dir name ∈ denied w)) as [|Hd]; [done|].
      by rewrite (bool_decide_eq_false_2 _ Hp), (bool_decide_eq_false_2 _ Hd).
    + destruct (decide (dir ∈ dom (files w))) as [|Hf]; [done|].
      destruct (decide (dir ∈ denied w)) as [|Hd]; [done|].
      cbn [mbind result_bind dirs denied files].
      destruct (decide (path_join dir name ∈ {[dir]} ∪ dirs w)) as [|Hp]; [done|].
      destruct (decide (path_join dir name ∈ denied w)) as [|Hd']; [done|].
      rewrite (bool_decide_eq_false_2 _ Hnot), (bool_decide_eq_false_2 _ Hf),
        (bool_decide_eq_false_2 _ Hd), (bool_decide_eq_false_2 _ Hd').
      rewrite bool_decide_eq_false_2; [done|].
      intros Hin. apply Hp, elem_of_union. by right.
  - revert Hw. unfold write_html, makedirs, open_write.
    repeat (case_decide; cbn [mbind result_bind]); intros [= <-]; by eexists.
Qed.


Section runs.
Variable requests_get : string → nat → result response.
Variable datetime : Type.
Variable utc_now : datetime.
Variable isoformat : datetime → string.
Variable local_strftime : datetime → string → string.

Lemma raise_for_status_ok url r :
  status_ok r = true → raise_for_status url r = Ok tt.
Proof.
  unfold status_ok, raise_for_status. intros H%negb_true_iff. by rewrite H.
Qed.

Lemma raise_for_status_bad url r :
  status_ok r = false → ∃ e, raise_for_status url r = Raise e.
Proof.
  unfold status_ok, raise_for_status. intros H%negb_false_iff. rewrite H. by eexists.
Qed.

Lemma fetch_xml_fails w :
  fetch_fails requests_get →
  ∃ line, fetch_xml requests_get NAS_XML_URL 30 w = Ok (None, print_err line w).
Proof.
  unfold fetch_xml, fetch_fails.
  intros [[e ->] | (r & -> & Hbad)].
  - by eexists.
  - destruct (raise_for_status_bad NAS_XML_URL r Hbad) as [e He].
    cbn [mbind result_bind]. rewrite He. by eexists.
Qed.

Lemma fetch_xml_returns w r :
  fetch_returns requests_get r →
  ∃ w1, fetch_xml requests_get NAS_XML_URL 30 w = Ok (Some (text r), w1)
        ∧ files w1 = files w ∧ dirs w1 = dirs w ∧ stdout w1 = stdout w
        ∧ denied w1 = denied w.
Proof.
  unfold fetch_xml, fetch_returns. intros [-> Hok].
  cbn [mbind result_bind]. rewrite (raise_for_status_ok _ _ Hok).
  cbn [try_except]. destruct (_ && _); by eexists.
Qed.

Lemma fetch_xml_total :
  fetch_fails requests_get ∨ ∃ r, fetch_returns requests_get r.
Proof.
  unfold fetch_fails, fetch_returns.
  destruct (requests_get NAS_XML_URL 30) as [r|e] eqn:Hget.
  - destruct (status_ok r) eqn:Hs.
    + right. by exists r.
    + left. right. by exists r.
  - left. left. by exists e.
Qed.

(** The fetch leaves the disk as it was. *)
Lemma fetch_xml_keeps_disk w :
  ∃ xml_text w1,
    fetch_xml requests_get NAS_XML_URL 30 w = Ok (xml_text, w1)
    ∧ write_accepted "docs" "index.html" w1 = write_accepted "docs" "index.html" w.
Proof.
  destruct fetch_xml_total as [Hfail | [r Hret]].
  - destruct (fetch_xml_fails w Hfail) as [line Hfetch]. by eexists _, _.
  - destruct (fetch_xml_returns w r Hret) as (w1 & Hfetch & Hf & Hd & _ & Hden).
    eexists _, _. split; [done|]. by apply write_accepted_same.
Qed.


Lemma main_without_text xmltodict_parse w xml_text w1 :
  fetch_xml requests_get NAS_XML_URL 30 w = Ok (xml_text, w1) →
  no_text xml_text = true →
  write_accepted "docs" "index.html" w1 = true →
  main requests_get xmltodict_parse datetime utc_now isoformat local_strftime w
  = Ok (print_out "Wrote fallback HTML."
          (after_write (fallback_page datetime isoformat utc_now) "docs" "index.html" w1)).
Proof.
  intros Hfetch Hno Hacc. unfold main. rewrite Hfetch.
  cbn [mbind result_bind fst snd]. rewrite Hno.
  by rewrite (write_html_accepted _ _ _ _ Hacc).
Qed.

(** With text, the page is rendered from the parsed records, or from none
    when parsing raises. *)
Lemma main_with_text xmltodict_parse w xml_text w1 :
  fetch_xml requests_get NAS_XML_URL 30 w = Ok (Some xml_text, w1) →
  xml_text ≠ "" →
  write_accepted "docs" "index.html" w1 = true →
  ∃ events w2,
    events = match parse_events_from_xml xmltodict_parse xml_text with
             | Ok evs => evs
             | Raise _ => []
             end
    ∧ files w2 = files w1 ∧ dirs w2 = dirs w1 ∧ stdout w2 = stdout w1
    ∧ main requests_get xmltodict_parse datetime utc_now isoformat local_strftime w
      = Ok (print_out ("Generated docs/index.html with "
                         +:+ pretty (length events) +:+ " events.")
              (after_write (render_html datetime local_strftime events utc_now)
                 "docs" "index.html" w2)).
Proof.
  intros Hfetch Htext Hacc. unfold main. rewrite Hfetch.
  cbn [mbind result_bind fst snd no_text default from_option id].
  apply String.eqb_neq in Htext. rewrite Htext.
  destruct (parse_events_from_xml xmltodict_parse xml_text) as [evs|e];
    cbn [mbind result_bind try_except fst snd].
  - exists evs, w1. rewrite (write_html_accepted _ _ _ _ Hacc). by repeat split.
  - exists [], (print_err ("ERROR parsing XML: " +:+ exn_msg e) w1).
    rewrite write_html_accepted; [by repeat split | exact Hacc].
Qed.

(** A write that is refused ends the run: nothing catches the error. *)
Lemma main_write_refused xmltodict_parse w :
  write_accepted "docs" "index.html" w = false →
  ∃ msg,
    main requests_get xmltodict_parse datetime utc_now isoformat local_strftime w
    = Raise (OSError msg).
Proof.
  intros Hacc. destruct (fetch_xml_keeps_disk w) as (xml_text & w1 & Hfetch & Hsame).
  rewrite <- Hsame in Hacc. unfold main. rewrite Hfetch.
  cbn [mbind result_bind fst snd]. destruct (no_text xml_text).
  - destruct (write_html_refused (fallback_page datetime isoformat utc_now) _ _ _ Hacc)
      as [msg ->]. by exists msg.
  - destruct (parse_events_from_xml xmltodict_parse (default "" xml_text)) as [evs|e];
      cbn [mbind result_bind try_except fst snd].
    + destruct (write_html_refused (render_html datetime local_strftime evs utc_now)
                  _ _ _ Hacc) as [msg ->]. by exists msg.
    + destruct (write_html_refused (render_html datetime local_strftime [] utc_now)
                  "docs" "index.html"
                  (print_err ("ERROR parsing XML: " +:+ exn_msg e) w1)) as [msg ->];
        [exact Hacc | by exists msg].
Qed.

End runs.

Lemma written_page html_text w :
  files (print_out "Wrote fallback HTML." (after_write html_text "docs" "index.html" w))
    !! "docs/index.html" = Some html_text.
Proof. cbn [files print_out after_write]. apply lookup_insert_eq. Qed.

Lemma generated_page line html_text w :
  files (print_out line (after_write html_text "docs" "index.html" w))
    !! "docs/index.html" = Some html_text.
Proof. cbn [files print_out after_write]. apply lookup_insert_eq. Qed.

(** C4 (as amended). Neither a failed fetch nor a failed parse is fatal:
    every run of [main] whose write the file system accepts ends without
    an exception and leaves a page at docs/index.html. When the fetch
    fails the page is the fallback page, with the failure and the
    timestamp, and the run is the same whatever the parser would do (it is
    not called); when parsing raises, the page is the one rendered from
    the empty list of events. *)
Theorem no_error_is_fatal
    (requests_get : string → nat → result response)
    (xmltodict_parse : string → result pyval)
    (datetime : Type) (utc_now : datetime) (isoformat : datetime → string)
    (local_strftime : datetime → string → string) (w : world) :
  write_accepted "docs" "index.html" w = true →
  ∃ w' page,
    main requests_get xmltodict_parse datetime utc_now isoformat local_strftime w = Ok w'
    ∧ files w' !! "docs/index.html" = Some page
    ∧ (fetch_fails requests_get →
         page = "<!doctype html><meta charset='utf-8'><title>FAA Bulletin</title>
        <pre>Could not retrieve FAA data at " +:+ isoformat utc_now
                +:+ "Z. Will try again next run.</pre>"
         ∧ ∀ other_parse,
             main requests_get other_parse datetime utc_now isoformat local_strftime w
             = Ok w')
    ∧ (∀ r e, fetch_returns requests_get r → text r ≠ "" →
         parse_events_from_xml xmltodict_parse (text r) = Raise e →
         page = render_html datetime local_strftime [] utc_now).
Proof.
  intros Hacc.
  destruct (fetch_xml_total requests_get) as [Hfail | [r Hret]].
  - destruct (fetch_xml_fails requests_get w Hfail) as [line Hfetch].
    eexists _, _. split; [by eapply main_without_text|].
    split; [apply written_page|]. split.
    + intros _. split; [reflexivity|]. intros other_parse. by eapply main_without_text.
    + intros r e [Hget Hok]. exfalso. unfold fetch_fails in Hfail.
      destruct Hfail as [[e' He'] | (r' & Hr' & Hbad)]; congruence.
  - destruct (fetch_xml_returns requests_get w r Hret) as (w1 & Hfetch & Hf & Hd & _ & Hden).
    assert (write_accepted "docs" "index.html" w1 = true) as Hacc1
      by by rewrite (write_accepted_same _ _ _ _ Hf Hd Hden).
    assert (¬ fetch_fails requests_get) as Hnofail.
    { destruct Hret as [Hget Hok].
      intros [[e' He'] | (r' & Hr' & Hbad)]; congruence. }
    destruct (decide (text r = "")) as [Hempty | Htext].
    + eexists _, _. split.
      { eapply main_without_text; [done| |done]. simpl. by rewrite Hempty. }
      split; [apply written_page|]. split; [done|].
      intros r' e [Hget' _] Htext'. destruct Hret as [Hget _].
      rewrite Hget in Hget'. injection Hget' as <-. done.
    + destruct (main_with_text requests_get datetime utc_now isoformat local_strftime
                  xmltodict_parse w (text r) w1 Hfetch Htext Hacc1)
        as (events & w2 & Hevents & _ & _ & _ & Hmain).
      eexists _, _. split; [exact Hmain|]. split; [apply generated_page|].
      split; [done|].
      intros r' e [Hget' _] _ Hraise. destruct Hret as [Hget _].
      rewrite Hget in Hget'. injection Hget' as <-.
      rewrite Hraise in Hevents. by rewrite Hevents.
Qed.

Lemma no_error_is_fatal_witness :
  ∃ w' page,
    main (sample_get "not xml at all") sample_parse unit tt
      (λ _, "2026-01-01T00:00:00+00:00") (λ _ _, "Thursday") empty_world = Ok w'
    ∧ files w' !! "docs/index.html" = Some page
    ∧ (fetch_fails (sample_get "not xml at all") →
         page = "<!doctype html><meta charset='utf-8'><title>FAA Bulletin</title>
        <pre>Could not retrieve FAA data at " +:+ "2026-01-01T00:00:00+00:00"
                +:+ "Z. Will try again next run.</pre>"
         ∧ ∀ other_parse,
             main (sample_get "not xml at all") other_parse unit tt
               (λ _, "2026-01-01T00:00:00+00:00") (λ _ _, "Thursday") empty_world
             = Ok w')
    ∧ (∀ r e, fetch_returns (sample_get "not xml at all") r → text r ≠ "" →
         parse_events_from_xml sample_parse (text r) = Raise e →
         page = render_html unit (λ _ _, "Thursday") [] tt).
Proof.
  apply (no_error_is_fatal (sample_get "not xml at all") sample_parse unit tt
           (λ _, "2026-01-01T00:00:00+00:00") (λ _ _, "Thursday") empty_world).
  reflexivity.
Defined.

(** C4, counterexample. The feed is fetched and parsed without error, but
    [docs] is a regular file: [os.makedirs] raises, nothing catches it,
    and the run ends with the exception and without a page. The same
    happens when the fetch fails. *)
Lemma refused_write_is_fatal :
  main (sample_get sample_xml) sample_parse unit tt
    (λ _, "2026-01-01T00:00:00+00:00") (λ _ _, "Thursday") docs_is_a_file
  = Raise (OSError "[Errno 17] File exists: 'docs'")
  ∧ main (λ _ _, Raise (RequestException "connection refused")) sample_parse unit tt
      (λ _, "2026-01-01T00:00:00+00:00") (λ _ _, "Thursday") docs_is_a_file
    = Raise (OSError "[Errno 17] File exists: 'docs'").
Proof. split; vm_compute; reflexivity. Qed.



(** The page is the same text around the timestamp. *)
Lemma render_page_around_stamp events :
  ∃ pre post, ∀ today,
    render_page events today = pre +:+ html_escape today +:+ post.
Proof.
  eexists (doc_open +:+ css +:+ doc_after_css), _. intros today.
  unfold render_page, esc. rewrite !string_app_assoc. reflexivity.
Qed.

(** C9. The page a run writes is determined by the text of the feed and
    the timestamp: for every feed text there are two fixed texts such that
    every run that fetches this feed, and whose write the file system
    accepts, writes the first, the escaped timestamp and the second,
    whatever the state it starts from; so two such runs on the same feed
    whose timestamps print alike write the same page. *)
Theorem page_determined_by_feed_and_stamp
    (xmltodict_parse : string → result pyval)
    (datetime : Type) (isoformat : datetime → string)
    (local_strftime : datetime → string → string) (xml_text : string) :
  (∃ pre post, ∀ requests_get utc_now w r,
     fetch_returns requests_get r → text r = xml_text → xml_text ≠ "" →
     write_accepted "docs" "index.html" w = true →
     ∃ w',
       main requests_get xmltodict_parse datetime utc_now isoformat local_strftime w
       = Ok w'
       ∧ files w' !! "docs/index.html"
         = Some (pre +:+ html_escape (local_strftime utc_now stamp_format) +:+ post))
  ∧ (∀ get1 get2 now1 now2 w1 w2 r1 r2,
       fetch_returns get1 r1 → fetch_returns get2 r2 →
       text r1 = xml_text → text r2 = xml_text → xml_text ≠ "" →
       write_accepted "docs" "index.html" w1 = true →
       write_accepted "docs" "index.html" w2 = true →
       local_strftime now1 stamp_format = local_strftime now2 stamp_format →
       ∃ w1' w2' page,
         main get1 xmltodict_parse datetime now1 isoformat local_strftime w1 = Ok w1'
         ∧ main get2 xmltodict_parse datetime now2 isoformat local_strftime w2 = Ok w2'
         ∧ files w1' !! "docs/index.html" = Some page
         ∧ files w2' !! "docs/index.html" = Some page).
Proof.
  set (events := match parse_events_from_xml xmltodict_parse xml_text with
                 | Ok evs => evs
                 | Raise _ => []
                 end).
  destruct (render_page_around_stamp events) as (pre & post & Hpage).
  assert (∀ requests_get utc_now w r,
     fetch_returns requests_get r → text r = xml_text → xml_text ≠ "" →
     write_accepted "docs" "index.html" w = true →
     ∃ w',
       main requests_get xmltodict_parse datetime utc_now isoformat local_strftime w
       = Ok w'
       ∧ files w' !! "docs/index.html"
         = Some (pre +:+ html_escape (local_strftime utc_now stamp_format) +:+ post))
    as Hrun.
  { intros requests_get utc_now w r Hret Hr Htext Hacc.
    destruct (fetch_xml_returns requests_get w r Hret) as (w1 & Hfetch & Hf & Hd & _ & Hden).
    assert (write_accepted "docs" "index.html" w1 = true) as Hacc1
      by by rewrite (write_accepted_same _ _ _ _ Hf Hd Hden).
    rewrite Hr in Hfetch.
    destruct (main_with_text requests_get datetime utc_now isoformat local_strftime
                xmltodict_parse w xml_text w1 Hfetch Htext Hacc1)
      as (events' & w2 & Hevents & _ & _ & _ & Hmain).
    eexists. split; [exact Hmain|]. rewrite generated_page.
    unfold render_html. by rewrite Hevents, Hpage. }
  split; [by exists pre, post|].
  intros get1 get2 now1 now2 w1 w2 r1 r2 Hret1 Hret2 Hr1 Hr2 Htext Hacc1 Hacc2 Hstamp.
  destruct (Hrun get1 now1 w1 r1 Hret1 Hr1 Htext Hacc1) as (w1' & Hmain1 & Hpage1).
  destruct (Hrun get2 now2 w2 r2 Hret2 Hr2 Htext Hacc2) as (w2' & Hmain2 & Hpage2).
  exists w1', w2', (pre +:+ html_escape (local_strftime now1 stamp_format) +:+ post).
  repeat split; try done. by rewrite Hstamp.
Qed.

(** ** The scenarios of the specification, run on the model *)

(** One Ground Stop block with one airport, JFK, delayed "45 minutes":
    one record, and it is among the headlines. *)
Example scenario_single_ground_stop :
  let tree := PDict [("AIRPORT_STATUS_INFORMATION", PDict [("Delay_type",
                PDict [("Name", PStr "Ground Stops");
                       ("Ground_Stop_List", PDict [("Airport",
                          PDict [("ARPT", PStr "JFK");
                                 ("Average_Delay", PStr "45 minutes")])])])])] in
  let jfk := {| type := "Ground Stop"; airport := PStr "JFK"; avg_delay := Some 45%Z;
                trend := PNone; reason := PNone; start := PNone; end_ := PNone |} in
  parse_events tree = Ok [jfk]
  ∧ contains "<li>JFK: Ground stop in effect (~45 min avg delay)</li>"
      (render_page [jfk] "now") = true.
Proof. by vm_compute. Qed.

(** The fetch ends in a network error: the page says so, and the run ends
    normally. *)
Example scenario_network_error :
  ∃ w' page,
    main (λ _ _, Raise (RequestException "connection refused")) sample_parse
      unit tt (λ _, "2026-01-01T00:00:00+00:00") (λ _ _, "Thursday") empty_world
    = Ok w'
    ∧ files w' !! "docs/index.html" = Some page
    ∧ contains "Could not retrieve FAA data" page = true
    ∧ stdout w' = ["Wrote fallback HTML."].
Proof. eexists _, _. split; [vm_compute; reflexivity|]. by vm_compute. Qed.

(** Two entries with the same type, airport and reason and different
    delays: the first one is kept. *)
Example scenario_duplicate_entries :
  parse_events_from_xml sample_parse sample_xml = Ok sample_events
  ∧ sample_event "Ground Stop" "JFK" 45 (PStr "weather") ∈ sample_events
  ∧ sample_event "Ground Stop" "JFK" 90 (PStr "weather") ∉ sample_events.
Proof.
  split; [apply sample_feed_events|]. split; [unfold sample_events; repeat constructor|].
  unfold sample_events. rewrite !elem_of_cons, elem_of_nil.
  intros [H | [H | [H | []]]]; discriminate.
Qed.

(** A feed the parser rejects: the page is rendered without events and
    holds the placeholder. *)
Example scenario_malformed_feed :
  ∃ w' page,
    main (sample_get "not xml at all") sample_parse
      unit tt (λ _, "2026-01-01T00:00:00+00:00") (λ _ _, "Thursday") empty_world
    = Ok w'
    ∧ files w' !! "docs/index.html" = Some page
    ∧ contains "<li>No active airport events right now.</li>" page = true
    ∧ stdout w' = ["Generated docs/index.html with 0 events."]
    ∧ stderr w' = ["ERROR parsing XML: syntax error"].
Proof. eexists _, _. split; [vm_compute; reflexivity|]. by vm_compute. Qed.

(** The normalizer on feed text. *)
Example friendly_reason_examples :
  friendly_reason (PStr "GDP due to WX") = PStr "Ground Delay Program due to weather"
  ∧ friendly_reason (PStr "!JFK 12/345 RWY 04L closed low ceilings")
    = PStr "12/345 runway 04L closed low clouds"
  ∧ friendly_reason (PStr "gs:VOLUME / deicing  -  low visibility;")
    = PStr "Ground Stop:high traffic volume / deicing operations - low visibility"
  ∧ friendly_reason (PStr "!ABC") = PStr "!ABC"
  ∧ to_int_safe (PStr "about 1 hour and 07 minutes") = Some 1%Z
  ∧ to_int_safe (PStr "none") = None.
Proof. by vm_compute. Qed.

(** ** Theorems: the generator [walk] *)

Lemma enumerate_from_elem_of {A B} (f : nat → A → list B) l : ∀ i y,
  y ∈ enumerate_from f i l ↔ ∃ j x, l !! j = Some x ∧ y ∈ f (i + j)%nat x.
Proof.
  induction l as [|x l IH]; intros i y; simpl.
  - split; [by intros ?%elem_of_nil | by intros (j & x & ? & _)].
  - rewrite elem_of_app, IH. split.
    + intros [Hy | (j & x' & Hj & Hy)].
      * exists 0, x. by rewrite Nat.add_0_r.
      * exists (S j), x'. split; [done|]. by replace (i + S j)%nat with (S i + j)%nat by lia.
    + intros ([|j] & x' & Hj & Hy).
      * simpl in Hj. injection Hj as ->. left. by rewrite Nat.add_0_r in Hy.
      * right. exists j, x'. split; [done|].
        by replace (i + S j)%nat with (S i + j)%nat in Hy by lia.
Qed.

Lemma walk_elem_of obj : ∀ path p k v,
  (p, k, v) ∈ walk obj path ↔
  is_scalar v = true
  ∧ ∃ rest, reaches obj rest v
            ∧ p = removelast (path ++ rest) ∧ k = last (path ++ rest).
Proof.
  induction obj as [| s | items IH | elems IH] using pyval_nested_ind; intros path p k v.
  - simpl. rewrite list_elem_of_singleton. split.
    + intros [= -> -> ->]. split; [done|]. exists []. rewrite app_nil_r.
      split; [constructor | done].
    + intros (_ & rest & Hreach & -> & ->). inversion Hreach; subst.
      by rewrite app_nil_r.
  - simpl. rewrite list_elem_of_singleton. split.
    + intros [= -> -> ->]. split; [done|]. exists []. rewrite app_nil_r.
      split; [constructor | done].
    + intros (_ & rest & Hreach & -> & ->). inversion Hreach; subst.
      by rewrite app_nil_r.
  - simpl. rewrite list_elem_of_In, in_flat_map. rewrite Forall_forall in IH. split.
    + intros ([k' child] & Hin & Hw). apply list_elem_of_In in Hin, Hw.
      apply (IH _ Hin) in Hw as (Hs & rest & Hreach & -> & ->). simpl in *.
      split; [done|]. exists (Key k' :: rest). rewrite <- app_assoc. simpl.
      split; [by econstructor | done].
    + intros (Hs & rest & Hreach & -> & ->).
      inversion Hreach as [| items' k0 child path0 v0 Hin0 Hsub |]; subst; [done|].
      exists (k0, child). split; [by apply list_elem_of_In|].
      apply list_elem_of_In, (IH (k0, child)); [done|]. split; [done|].
      exists path0. simpl. by rewrite <- app_assoc.
  - simpl. rewrite enumerate_from_elem_of. rewrite Forall_forall in IH. split.
    + intros (j & child & Hj & Hw). simpl in Hw.
      apply IH in Hw as (Hs & rest & Hreach & -> & ->); [|by eapply list_elem_of_lookup_2].
      split; [done|]. exists (Index j :: rest). rewrite <- app_assoc. simpl.
      split; [by econstructor | done].
    + intros (Hs & rest & Hreach & -> & ->).
      inversion Hreach as [| | elems' i child path0 v0 Hi Hsub]; subst; [done|].
      exists i, child. split; [done|]. simpl.
      apply IH; [by eapply list_elem_of_lookup_2|]. split; [done|].
      exists path0. by rewrite <- app_assoc.
Qed.

Lemma paths_inside_sorted {A} (inside : A → list (list nat)) l : ∀ i,
  Forall (λ x, StronglySorted before (inside x)) l →
  StronglySorted before (paths_from (λ _, false) inside i l).
Proof.
  induction l as [|x l IH]; intros i Hl; simpl; [constructor|].
  apply Forall_cons in Hl as [Hsorted Hl].
  apply StronglySorted_app_2.
  - intros p q Hp%list_elem_of_fmap Hq. destruct Hp as (p' & -> & Hp').
    destruct (paths_from_heads _ _ _ _ _ Hq) as (j & rest & -> & Hle).
    by apply before_lt.
  - clear -Hsorted. induction Hsorted as [|p ps _ IHs Hall]; simpl; constructor; [done|].
    rewrite Forall_fmap. eapply Forall_impl; [done|]. intros q. apply before_cons.
  - by apply IH.
Qed.

Lemma leaf_paths_sorted obj : StronglySorted before (leaf_paths obj).
Proof.
  induction obj as [| s | items IH | elems IH] using pyval_nested_ind; simpl.
  - repeat constructor.
  - repeat constructor.
  - by apply paths_inside_sorted.
  - by apply paths_inside_sorted.
Qed.

(** A path is listed exactly when it leads to a value that is neither a
    mapping nor a sequence. *)
Lemma leaf_paths_elem_of obj : ∀ pos,
  pos ∈ leaf_paths obj ↔ ∃ path v, value_at obj pos = Some (path, v) ∧ is_scalar v = true.
Proof.
  induction obj as [| s | items IH | elems IH] using pyval_nested_ind; intros pos.
  - simpl leaf_paths. rewrite list_elem_of_singleton. split.
    + intros ->. by exists [], PNone.
    + intros (path & v & Hv & _). by destruct pos.
  - simpl leaf_paths. rewrite list_elem_of_singleton. split.
    + intros ->. by exists [], (PStr s).
    + intros (path & v & Hv & _). by destruct pos.
  - destruct pos as [|j rest].
    { split.
      - intros (j & rest & [=] & _)%paths_from_heads.
      - intros (path & v & [= <- <-] & Hs). done. }
    simpl leaf_paths. rewrite paths_from_elem_of, Nat.sub_0_r. cbn [value_at].
    rewrite Forall_forall in IH. split.
    + intros ([k' v'] & Hlook & _ & [[_ ?] | Hin]); [done|]. rewrite Hlook.
      apply IH in Hin as (path & v & Hv & Hs); [|by eapply list_elem_of_lookup_2].
      exists (Key k' :: path), v. simpl in *. by rewrite Hv.
    + intros (path & v & Hv & Hs).
      destruct (items !! j) as [[k' v']|] eqn:Hlook; [|done].
      exists (k', v'). split; [done|]. split; [lia|]. right.
      apply IH; [by eapply list_elem_of_lookup_2|]. simpl in *.
      destruct (value_at v' rest) as [[path' v'']|]; [|done].
      injection Hv as <- <-. by exists path', v''.
  - destruct pos as [|j rest].
    { split.
      - intros (j & rest & [=] & _)%paths_from_heads.
      - intros (path & v & [= <- <-] & Hs). done. }
    simpl leaf_paths. rewrite paths_from_elem_of, Nat.sub_0_r. cbn [value_at].
    rewrite Forall_forall in IH. split.
    + intros (v' & Hlook & _ & [[_ ?] | Hin]); [done|]. rewrite Hlook.
      apply IH in Hin as (path & v & Hv & Hs); [|by eapply list_elem_of_lookup_2].
      exists (Index j :: path), v. by rewrite Hv.
    + intros (path & v & Hv & Hs).
      destruct (elems !! j) as [v'|] eqn:Hlook; [|done].
      exists v'. split; [done|]. split; [lia|]. right.
      apply IH; [by eapply list_elem_of_lookup_2|].
      destruct (value_at v' rest) as [[path' v'']|]; [|done].
      injection Hv as <- <-. by exists path', v''.
Qed.

(** What [walk] yields is what stands at the paths, one for one. *)
Lemma walk_at_leaf_paths obj : ∀ prefix,
  Forall2 (λ pos t, ∃ path v,
             value_at obj pos = Some (path, v)
             ∧ t = (removelast (prefix ++ path), last (prefix ++ path), v))
    (leaf_paths obj) (walk obj prefix).
Proof.
  induction obj as [| s | items IH | elems IH] using pyval_nested_ind; intros prefix.
  - repeat constructor. exists [], PNone. by rewrite app_nil_r.
  - repeat constructor. exists [], (PStr s). by rewrite app_nil_r.
  - simpl.
    assert (∀ pre l,
      Forall (λ kv, ∀ prefix, Forall2 (λ pos t, ∃ path v,
                value_at kv.2 pos = Some (path, v)
                ∧ t = (removelast (prefix ++ path), last (prefix ++ path), v))
              (leaf_paths kv.2) (walk kv.2 prefix)) l →
      Forall2 (λ pos t, ∃ path v,
                 value_at (PDict (pre ++ l)) pos = Some (path, v)
                 ∧ t = (removelast (prefix ++ path), last (prefix ++ path), v))
        (paths_from (λ _, false) (λ kv, leaf_paths kv.2) (length pre) l)
        (flat_map (λ kv, walk kv.2 (prefix ++ [Key kv.1])) l)) as Hgen.
    { intros pre l Hl. revert pre. induction Hl as [|[k' v'] l Hkv _ IHl]; intros pre;
        simpl; [constructor|].
      apply Forall2_app.
      - apply Forall2_fmap_l. eapply Forall2_impl; [exact (Hkv (prefix ++ [Key k']))|].
        intros pos t (path & v & Hv & ->). exists (Key k' :: path), v.
        cbn [value_at]. rewrite list_lookup_middle by done. simpl in *. rewrite Hv.
        split; [done|]. by rewrite <- app_assoc.
      - specialize (IHl (pre ++ [(k', v')])).
        rewrite <- app_assoc, length_app in IHl. simpl in IHl.
        by rewrite Nat.add_1_r in IHl. }
    apply (Hgen [] items IH).
  - simpl.
    assert (∀ pre l,
      Forall (λ x, ∀ prefix, Forall2 (λ pos t, ∃ path v,
                value_at x pos = Some (path, v)
                ∧ t = (removelast (prefix ++ path), last (prefix ++ path), v))
              (leaf_paths x) (walk x prefix)) l →
      Forall2 (λ pos t, ∃ path v,
                 value_at (PList (pre ++ l)) pos = Some (path, v)
                 ∧ t = (removelast (prefix ++ path), last (prefix ++ path), v))
        (paths_from (λ _, false) (λ x, leaf_paths x) (length pre) l)
        (enumerate_from (λ i x, walk x (prefix ++ [Index i])) (length pre) l)) as Hgen.
    { intros pre l Hl. revert pre. induction Hl as [|x l Hx _ IHl]; intros pre;
        simpl; [constructor|].
      apply Forall2_app.
      - apply Forall2_fmap_l.
        eapply Forall2_impl; [exact (Hx (prefix ++ [Index (length pre)]))|].
        intros pos t (path & v & Hv & ->). exists (Index (length pre) :: path), v.
        cbn [value_at]. rewrite list_lookup_middle by done. rewrite Hv.
        split; [done|]. by rewrite <- app_assoc.
      - specialize (IHl (pre ++ [x])).
        rewrite <- app_assoc, length_app in IHl. simpl in IHl.
        by rewrite Nat.add_1_r in IHl. }
    apply (Hgen [] elems IH).
Qed.

(** X1. [walk(obj)] yields the values of the structure that are neither
    mappings nor sequences, once for each place where one stands and in
    document order: there is a list of paths of positions, increasing in
    the order of a pre-order traversal, that holds every path to such a
    value and matches what is yielded one for one; what is yielded for a
    path is its steps (keys and indices) without the last, the last step
    ([None] for the empty path) and the value. So a triple is yielded
    exactly when its value is such a value and some path of keys and
    indices leads to it. *)
Theorem walk_yields_the_leaves (obj : pyval) :
  (∃ positions,
     StronglySorted before positions
     ∧ Forall2 (λ pos t, ∃ path v,
                  value_at obj pos = Some (path, v)
                  ∧ t = (removelast path, last path, v))
         positions (walk obj [])
     ∧ ∀ pos, pos ∈ positions
              ↔ ∃ path v, value_at obj pos = Some (path, v) ∧ is_scalar v = true)
  ∧ ∀ p k v,
      (p, k, v) ∈ walk obj [] ↔
      is_scalar v = true
      ∧ ∃ path, reaches obj path v ∧ p = removelast path ∧ k = last path.
Proof.
  split.
  - exists (leaf_paths obj). split; [apply leaf_paths_sorted|].
    split; [apply (walk_at_leaf_paths obj [])|]. apply leaf_paths_elem_of.
  - intros p k v. apply (walk_elem_of obj []).
Qed.

(** ** Theorems: [to_int_safe] *)



Lemma ends_digits_match prev d t :
  is_digit d = true →
  ∃ p tl, ends false (Plus (Cls is_digit)) (prev, String d t)
          = (p, lstrip is_digit t) :: tl.
Proof.
  intros Hd. unfold Plus.
  change (ends false (Cat ?a ?b) ?c) with (flat_map (ends false b) (ends false a c)).
  replace (ends false (Cls is_digit) (prev, String d t)) with [(Some d, t)]
    by (cbn [ends fst snd]; by rewrite Hd).
  destruct (star_class_head false is_digit (Some d) t) as (p & tl & Hstar).
  cbn [flat_map]. rewrite Hstar, app_nil_r. by eexists _, _.
Qed.

Lemma ends_digits_none prev s :
  no_digit_first s = true → ends false (Plus (Cls is_digit)) (prev, s) = [].
Proof.
  intros Hs. unfold Plus.
  change (ends false (Cat ?a ?b) ?c) with (flat_map (ends false b) (ends false a c)).
  replace (ends false (Cls is_digit) (prev, s)) with (@nil cursor); [done|].
  destruct s as [|c t]; [done|]. cbn [ends fst snd]. cbn [no_digit_first] in Hs.
  apply negb_true_iff in Hs. by rewrite Hs.
Qed.



Lemma search_digits_None s : ∀ prev,
  search_scan false (Plus (Cls is_digit)) prev s = None ↔ no_char is_digit s = true.
Proof.
  induction s as [|c s IH]; intros prev.
  - cbn [search_scan]. by rewrite ends_digits_none.
  - unfold no_char. cbn [all_chars]. destruct (is_digit c) eqn:Hc.
    + destruct (ends_digits_match prev c s Hc) as (p & tl & Hends).
      cbn [search_scan]. rewrite Hends. split; [done|]. by intros [? _]%andb_true_iff.
    + cbn [search_scan]. rewrite ends_digits_none by (cbn; by rewrite Hc).
      rewrite (IH (Some c)). unfold no_char. simpl. done.
Qed.



(** X3. [to_int_safe] returns [None] exactly for a value that is false
    ([None], the empty string, an empty mapping or sequence) and for one
    whose text holds no digit. *)
Theorem to_int_safe_none_iff (s : pyval) :
  to_int_safe s = None ↔ truthy s = false ∨ no_char is_digit (py_str s) = true.
Proof.
  unfold to_int_safe. destruct (truthy s); cbn [negb].
  - unfold re_search.
    destruct (search_scan false (Plus (Cls is_digit)) None (py_str s)) eqn:Hsearch.
    + split; [done|]. intros [? | Hno]; [done|].
      apply (search_digits_None _ None) in Hno. congruence.
    + split; [|done]. intros _. right. by apply (search_digits_None _ None).
  - split; [by left | done].
Qed.

(** *** Printing a number and reading it back *)








(** ** Theorems: the shape of a normalized reason *)

Lemma ends_plus_class_match ic p prev c t :
  p c = true →
  ∃ q tl, ends ic (Plus (Cls p)) (prev, String c t) = (q, lstrip p t) :: tl.
Proof.
  intros Hc. unfold Plus.
  change (ends ic (Cat ?a ?b) ?x) with (flat_map (ends ic b) (ends ic a x)).
  replace (ends ic (Cls p) (prev, String c t)) with [(Some c, t)]
    by (cbn [ends fst snd]; by rewrite Hc).
  destruct (star_class_head ic p (Some c) t) as (q & tl & Hstar).
  cbn [flat_map]. rewrite Hstar, app_nil_r. by eexists _, _.
Qed.

Lemma ends_plus_class_none ic p prev s :
  match s with String c _ => p c | "" => false end = false →
  ends ic (Plus (Cls p)) (prev, s) = [].
Proof.
  intros Hs. unfold Plus.
  change (ends ic (Cat ?a ?b) ?x) with (flat_map (ends ic b) (ends ic a x)).
  replace (ends ic (Cls p) (prev, s)) with (@nil cursor); [done|].
  destruct s as [|c t]; [done|]. cbn [ends fst snd]. by rewrite Hs.
Qed.

Lemma lstrip_length p s : (String.length (lstrip p s) ≤ String.length s)%nat.
Proof.
  induction s as [|c s IH]; [done|]. cbn [lstrip].
  destruct (p c); cbn [String.length] in *; lia.
Qed.

Lemma sub_scan_skip_lstrip ic r repl_ p t : ∀ prev,
  ∃ prev', sub_scan ic r repl_ (String.length t - String.length (lstrip p t)) prev t
           = sub_scan ic r repl_ 0 prev' (lstrip p t).
Proof.
  induction t as [|c t IH]; intros prev; [by exists prev|].
  cbn [lstrip]. destruct (p c).
  - pose proof (lstrip_length p t).
    replace (String.length (String c t) - String.length (lstrip p t))%nat
      with (S (String.length t - String.length (lstrip p t))) by (cbn [String.length]; lia).
    cbn [sub_scan]. apply IH.
  - rewrite Nat.sub_diag. by exists prev.
Qed.

Lemma squash_spaces_inside t :
  squash_spaces true t = squash_spaces false (lstrip is_space t).
Proof.
  induction t as [|c t IH]; [done|]. cbn [squash_spaces lstrip].
  destruct (is_space c) eqn:Hc; [done|]. cbn [squash_spaces]. by rewrite Hc.
Qed.

(** [re.sub(r"\s+", " ", txt)] is the scanner [squash_spaces]. *)
Lemma sub_scan_spaces n : ∀ s prev,
  (String.length s ≤ n)%nat →
  sub_scan false (Plus (Cls is_space)) " " 0 prev s = squash_spaces false s.
Proof.
  induction n as [|n IH]; intros s prev Hlen.
  - destruct s; [|cbn [String.length] in Hlen; lia].
    cbn [sub_scan]. by rewrite ends_plus_class_none.
  - destruct s as [|c t].
    { cbn [sub_scan]. by rewrite ends_plus_class_none. }
    cbn [squash_spaces]. destruct (is_space c) eqn:Hc.
    + destruct (ends_plus_class_match false is_space prev c t Hc) as (q & tl & Hends).
      pose proof (lstrip_length is_space t).
      rewrite (sub_scan_match _ _ _ _ _ _ _ _ _
                 (String.length t - String.length (lstrip is_space t)) Hends)
        by (cbn [String.length]; lia).
      destruct (sub_scan_skip_lstrip false (Plus (Cls is_space)) " " is_space t (Some c))
        as [prev' ->].
      rewrite IH by (cbn [String.length] in Hlen; lia).
      by rewrite squash_spaces_inside.
    + rewrite sub_scan_no_match by (apply ends_plus_class_none; by rewrite Hc).
      by rewrite IH by (cbn [String.length] in Hlen; lia).
Qed.

Lemma squash_spaces_single inside s :
  single_spaced (squash_spaces inside s) = true
  ∧ (inside = true →
     match squash_spaces inside s with String d _ => is_space d | "" => false end = false).
Proof.
  revert inside. induction s as [|c s IH]; intros inside; [done|].
  cbn [squash_spaces]. destruct (is_space c) eqn:Hc.
  - destruct inside; [apply IH|]. destruct (IH true) as [Hs Hfirst].
    split; [|done]. cbn [single_spaced].
    change (is_space " ") with true. cbn [Ascii.eqb]. rewrite Hfirst by done.
    by rewrite Hs.
  - destruct (IH false) as [Hs _]. split.
    + cbn [single_spaced]. by rewrite Hc, Hs.
    + intros _. done.
Qed.

Lemma single_spaced_tail c s : single_spaced (String c s) = true → single_spaced s = true.
Proof. cbn [single_spaced]. by intros [_ ?]%andb_true_iff. Qed.

Lemma single_spaced_lstrip p s :
  single_spaced s = true → single_spaced (lstrip p s) = true.
Proof.
  induction s as [|c s IH]; [done|]. intros Hs. cbn [lstrip].
  destruct (p c); [|done]. by apply IH, (single_spaced_tail c).
Qed.

Lemma single_spaced_rstrip p s :
  single_spaced s = true → single_spaced (rstrip p s) = true.
Proof.
  induction s as [|c s IH]; [done|]. intros Hs.
  pose proof (IH (single_spaced_tail _ _ Hs)) as Ht.
  cbn [rstrip]. destruct (String.eqb (rstrip p s) "" && p c) eqn:Hcut; [done|].
  cbn [single_spaced] in *. apply andb_true_iff in Hs as [Hc _].
  rewrite Ht, andb_true_r. destruct (is_space c); [|done].
  apply andb_true_iff in Hc as [-> Hnext]. cbn [andb].
  destruct s as [|d s]; [done|]. cbn [rstrip].
  destruct (String.eqb (rstrip p s) "" && p d); [done | exact Hnext].
Qed.

Lemma lstrip_first p s c : first_char (lstrip p s) = Some c → p c = false.
Proof.
  induction s as [|d s IH]; [done|]. cbn [lstrip].
  destruct (p d) eqn:Hd; [done|]. by intros [= <-].
Qed.

Lemma rstrip_first p s c :
  first_char (rstrip p s) = Some c → first_char s = Some c.
Proof.
  destruct s as [|d s]; [done|]. cbn [rstrip].
  by destruct (String.eqb (rstrip p s) "" && p d).
Qed.

Lemma rstrip_last p s c : last_char (rstrip p s) = Some c → p c = false.
Proof.
  induction s as [|d s IH]; [done|]. cbn [rstrip].
  destruct (String.eqb (rstrip p s) "") eqn:Hempty.
  - apply String.eqb_eq in Hempty. rewrite Hempty. cbn [andb].
    destruct (p d) eqn:Hd; [done|]. by intros [= <-].
  - cbn [andb]. destruct (rstrip p s) as [|e rest] eqn:Hr; [done|]. exact IH.
Qed.

(** X5. When the normalized text is not empty, [friendly_reason] returns
    it, and it is tidy: white space occurs in it only as single spaces
    between other characters, and it neither begins nor ends with a space,
    a hyphen, a colon or a semicolon. Otherwise it returns the raw text. *)
Theorem friendly_reason_is_tidy (raw s : string) :
  friendly_reason (PStr raw) = PStr s →
  (normalize raw = "" ∧ s = raw)
  ∨ (s = normalize raw
     ∧ single_spaced s = true
     ∧ (∀ c, first_char s = Some c → char_in " -:;" c = false)
     ∧ (∀ c, last_char s = Some c → char_in " -:;" c = false)).
Proof.
  unfold friendly_reason. destruct (truthy (PStr raw)); [|done].
  cbn [negb py_str]. unfold py_or.
  destruct (truthy (PStr (normalize raw))) eqn:Hn.
  - intros [= <-]. right. split; [done|].
    unfold normalize, squash, strip_chars, strip_with, re_sub.
    rewrite (sub_scan_spaces _ _ _ (Nat.le_refl _)).
    split; [|split].
    + apply single_spaced_rstrip, single_spaced_lstrip, squash_spaces_single.
    + intros c Hc%rstrip_first. by eapply lstrip_first.
    + intros c Hc. by eapply rstrip_last.
  - intros [= <-]. left. by apply truthy_PStr_false in Hn.
Qed.

Lemma friendly_reason_is_tidy_witness :
  (normalize " - GDP   due to
 WX ;" = "" ∧ "Ground Delay Program due to weather" = " - GDP   due to
 WX ;")
  ∨ ("Ground Delay Program due to weather" = normalize " - GDP   due to
 WX ;"
     ∧ single_spaced "Ground Delay Program due to weather" = true
     ∧ (∀ c, first_char "Ground Delay Program due to weather" = Some c
             → char_in " -:;" c = false)
     ∧ (∀ c, last_char "Ground Delay Program due to weather" = Some c
             → char_in " -:;" c = false)).
Proof.
  apply (friendly_reason_is_tidy " - GDP   due to
 WX ;" "Ground Delay Program due to weather").
  vm_compute. reflexivity.
Defined.

(** ** Theorems: [summarize_event] *)

Lemma prefix_refl_app (a b : string) : String.prefix a (a +:+ b) = true.
Proof.
  induction a as [|c a IH]; [by destruct b|].
  rewrite string_app_cons. cbn [String.prefix].
  destruct (ascii_dec c c); [exact IH | done].
Qed.

Lemma prefix_app_l (p b z : string) :
  String.prefix p b = true → String.prefix p (b +:+ z) = true.
Proof.
  revert b. induction p as [|c p IH]; intros b; [by destruct (b +:+ z)|].
  destruct b as [|d b]; [done|]. rewrite string_app_cons. cbn [String.prefix].
  destruct (ascii_dec c d); [apply IH | done].
Qed.

Lemma startswith_label (ap label : string) :
  startswith (ap +:+ String ":" (String " " label)) (ap +:+ ": ") = true.
Proof.
  unfold startswith.
  change (String ":" (String " " label)) with (": " +:+ label).
  rewrite <- string_app_assoc. apply prefix_refl_app.
Qed.

(** X6. Every summary begins with the airport, as text, a colon and a
    space; what follows depends on the type, the delay, the reason and the
    start time. *)
Theorem summarize_event_starts_with_airport (evt : event) :
  startswith (summarize_event evt) (py_str (airport evt) +:+ ": ") = true.
Proof.
  unfold summarize_event, startswith.
  set (ap := py_str (airport evt)).
  assert (∀ b z, String.prefix (ap +:+ ": ") b = true →
                 String.prefix (ap +:+ ": ") (b +:+ z) = true) as Hgrow
    by (intros b z; apply prefix_app_l).
  assert (∀ b, String.prefix (ap +:+ ": ") b = true →
      String.prefix (ap +:+ ": ")
        (if truthy (start evt) then
           (if truthy (reason evt)
            then (match avg_delay evt with
                  | Some avg => if (avg =? 0)%Z then b
                                else b +:+ " (~" +:+ pretty avg +:+ " min avg delay)"
                  | None => b
                  end) +:+ " " +:+ em_dash +:+ " " +:+ py_str (reason evt)
            else (match avg_delay evt with
                  | Some avg => if (avg =? 0)%Z then b
                                else b +:+ " (~" +:+ pretty avg +:+ " min avg delay)"
                  | None => b
                  end)) +:+ " [since " +:+ py_str (start evt) +:+ "]"
         else
           (if truthy (reason evt)
            then (match avg_delay evt with
                  | Some avg => if (avg =? 0)%Z then b
                                else b +:+ " (~" +:+ pretty avg +:+ " min avg delay)"
                  | None => b
                  end) +:+ " " +:+ em_dash +:+ " " +:+ py_str (reason evt)
            else (match avg_delay evt with
                  | Some avg => if (avg =? 0)%Z then b
                                else b +:+ " (~" +:+ pretty avg +:+ " min avg delay)"
                  | None => b
                  end))) = true) as Htail.
  { intros b Hb.
    assert (String.prefix (ap +:+ ": ")
              (match avg_delay evt with
               | Some avg => if (avg =? 0)%Z then b
                             else b +:+ " (~" +:+ pretty avg +:+ " min avg delay)"
               | None => b
               end) = true) as Havg.
    { destruct (avg_delay evt) as [avg|]; [|done].
      destruct (avg =? 0)%Z; [done | by apply Hgrow]. }
    destruct (truthy (start evt)), (truthy (reason evt)); auto. }
  repeat match goal with
         | |- context [String.eqb (type evt) ?t] => destruct (String.eqb (type evt) t)
         end;
    apply Htail; apply startswith_label.
Qed.

(** ** Theorems: escaping *)

Lemma char_in_app (a b : string) c : char_in (a +:+ b) c = char_in a c || char_in b c.
Proof.
  induction a as [|x a IH]; [done|]. rewrite string_app_cons. cbn [char_in].
  by rewrite IH, orb_assoc.
Qed.

Lemma char_in_replace_char old new s c :
  char_in (replace_char old new s) c
  = (char_in s old && char_in new c)
    || existsb (λ x, negb (Ascii.eqb x old) && Ascii.eqb x c) (list_ascii_of_string s).
Proof.
  induction s as [|x s IH]; [done|]. cbn [replace_char char_in list_ascii_of_string existsb].
  destruct (Ascii.eqb x old) eqn:Hx.
  - rewrite char_in_app, IH. cbn [negb andb orb].
    destruct (char_in new c); [done|]. by destruct (char_in s old).
  - cbn [char_in]. rewrite IH. cbn [negb andb orb].
    destruct (Ascii.eqb x c); [by rewrite !orb_true_r|].
    by destruct (char_in s old && char_in new c).
Qed.

Lemma replace_char_absent old new s :
  char_in s old = false → replace_char old new s = s.
Proof.
  induction s as [|x s IH]; [done|]. cbn [char_in replace_char].
  intros [Hx Hs]%orb_false_iff. by rewrite Hx, IH.
Qed.

Lemma replace_char_no old new s c :
  char_in new c = false →
  char_in (replace_char old new s) c = false
  ↔ (c = old ∨ char_in s c = false).
Proof.
  intros Hnew. induction s as [|x s IH]; [by split; [right|]|].
  cbn [replace_char char_in]. destruct (Ascii.eqb x old) eqn:Hx.
  - apply Ascii.eqb_eq in Hx as ->. rewrite char_in_app, Hnew. cbn [orb].
    rewrite IH. destruct (Ascii.eqb old c) eqn:Hc.
    + apply Ascii.eqb_eq in Hc as ->. split; [by left | by left].
    + cbn [orb]. done.
  - cbn [char_in]. destruct (Ascii.eqb x c) eqn:Hc.
    + apply Ascii.eqb_eq in Hc as ->. cbn [orb]. split; [done|].
      intros [-> | ?]; [|done]. by rewrite Ascii.eqb_refl in Hx.
    + cbn [orb]. exact IH.
Qed.

Lemma no_char_spec p s :
  no_char p s = true ↔ ∀ c, p c = true → char_in s c = false.
Proof.
  unfold no_char. induction s as [|x s IH]; cbn [all_chars char_in]; [done|].
  rewrite andb_true_iff, IH, negb_true_iff. split.
  - intros [Hx Hs] c Hc. rewrite (Hs c Hc), orb_false_r.
    destruct (Ascii.eqb x c) eqn:E; [|done]. apply Ascii.eqb_eq in E. congruence.
  - intros H. split.
    + destruct (p x) eqn:Hx; [|done]. specialize (H x Hx).
      by rewrite Ascii.eqb_refl in H.
    + intros c Hc. specialize (H c Hc). by apply orb_false_iff in H as [_ ?].
Qed.

Lemma is_markup_cases c :
  is_markup c = true → c = "<"%char ∨ c = ">"%char ∨ c = dquote ∨ c = "'"%char.
Proof.
  unfold is_markup. rewrite !orb_true_iff, !Ascii.eqb_eq. tauto.
Qed.

Lemma html_escape_no_markup s c :
  is_markup c = true → char_in (html_escape s) c = false.
Proof.
  unfold html_escape.
  intros [-> | [-> | [-> | ->]]]%is_markup_cases;
    repeat (apply replace_char_no; [done|]; first [by left | right]).
Qed.

Lemma html_escape_plain s : no_char is_special s = true → html_escape s = s.
Proof.
  intros Hs. unfold html_escape.
  assert (∀ c, is_special c = true → char_in s c = false) as H
    by by apply no_char_spec.
  rewrite (replace_char_absent "&") by by apply H.
  rewrite (replace_char_absent "<") by by apply H.
  rewrite (replace_char_absent ">") by by apply H.
  rewrite (replace_char_absent dquote) by by apply H.
  by rewrite (replace_char_absent "'") by by apply H.
Qed.

(** X7. Escaped text holds no angle bracket and no quote, whatever the
    text was. *)
Theorem esc_leaves_no_markup (s : string) : no_char is_markup (esc s) = true.
Proof.
  apply no_char_spec. intros c Hc. by apply html_escape_no_markup.
Qed.

(** X8. Escaping changes nothing in a text that has no ampersand, no angle
    bracket and no quote. *)
Theorem esc_keeps_plain_text (s : string) :
  no_char is_special s = true → esc s = s.
Proof. apply html_escape_plain. Qed.

Lemma esc_keeps_plain_text_witness :
  no_char is_special "JFK: Ground stop in effect (~45 min avg delay)" = true
  ∧ esc "JFK: Ground stop in effect (~45 min avg delay)"
    = "JFK: Ground stop in effect (~45 min avg delay)".
Proof.
  split; [reflexivity | apply esc_keeps_plain_text; reflexivity].
Defined.

(** ** Theorems: the tallies and the groups of [render_html] *)

Lemma count_get_count_add counts t t' :
  count_get (count_add counts t) t'
  = (count_get counts t' + if String.eqb t t' then 1 else 0)%nat.
Proof.
  induction counts as [|[k n] rest IH]; cbn [count_add count_get].
  - by destruct (String.eqb t t').
  - destruct (String.eqb k t) eqn:Hkt; cbn [count_get].
    + apply String.eqb_eq in Hkt as ->.
      destruct (String.eqb t t'); lia.
    + destruct (String.eqb k t') eqn:Hkt'; [|exact IH].
      apply String.eqb_eq in Hkt' as ->.
      rewrite String.eqb_sym, Hkt. lia.
Qed.

Lemma count_add_keys counts t k :
  k ∈ map fst (count_add counts t) ↔ k = t ∨ k ∈ map fst counts.
Proof.
  induction counts as [|[k' n] rest IH]; cbn [count_add map fst].
  - rewrite list_elem_of_singleton. split; [by left | by intros [?|?%elem_of_nil]].
  - destruct (String.eqb k' t) eqn:Hkt; cbn [map fst].
    + apply String.eqb_eq in Hkt as ->. rewrite elem_of_cons.
      split; [by right | intros [-> | ?]; [by left | done]].
    + rewrite !elem_of_cons, IH. tauto.
Qed.

Lemma count_add_NoDup counts t :
  NoDup (map fst counts) → NoDup (map fst (count_add counts t)).
Proof.
  induction counts as [|[k n] rest IH]; cbn [count_add map fst].
  - intros _. apply NoDup_singleton.
  - intros [Hk Hrest]%NoDup_cons.
    destruct (String.eqb k t) eqn:Hkt; cbn [map fst].
    + by apply NoDup_cons.
    + apply NoDup_cons. split; [|by apply IH].
      rewrite count_add_keys. intros [-> | ?]; [|done].
      by rewrite String.eqb_refl in Hkt.
Qed.

Lemma count_add_positive counts t :
  Forall (λ kv, 0 < kv.2)%nat counts →
  Forall (λ kv, 0 < kv.2)%nat (count_add counts t).
Proof.
  induction counts as [|[k n] rest IH]; cbn [count_add].
  - intros _. by repeat constructor.
  - intros [Hn Hrest]%Forall_cons. destruct (String.eqb k t).
    + apply Forall_cons. split; [simpl; lia | done].
    + apply Forall_cons. split; [done | by apply IH].
Qed.

Lemma count_get_elem_of counts t n :
  NoDup (map fst counts) → (t, n) ∈ counts → count_get counts t = n.
Proof.
  induction counts as [|[k m] rest IH]; [by intros _ ?%elem_of_nil|].
  cbn [map fst count_get]. intros [Hk Hrest]%NoDup_cons [Heq | Hin]%elem_of_cons.
  - injection Heq as -> ->. by rewrite String.eqb_refl.
  - destruct (String.eqb k t) eqn:Hkt; [|by apply IH].
    apply String.eqb_eq in Hkt as ->. destruct Hk.
    apply list_elem_of_fmap. by exists (t, n).
Qed.

Lemma count_get_present counts t :
  count_get counts t ≠ 0%nat → (t, count_get counts t) ∈ counts.
Proof.
  induction counts as [|[k m] rest IH]; cbn [count_get]; [done|].
  destruct (String.eqb k t) eqn:Hkt.
  - apply String.eqb_eq in Hkt as ->. intros _. apply elem_of_cons. by left.
  - intros H. apply elem_of_cons. right. by apply IH.
Qed.

Lemma counts_fold events acc :
  (NoDup (map fst acc) → NoDup (map fst (fold_left count_add (map type events) acc)))
  ∧ (Forall (λ kv, 0 < kv.2)%nat acc →
     Forall (λ kv, 0 < kv.2)%nat (fold_left count_add (map type events) acc))
  ∧ ∀ t, count_get (fold_left count_add (map type events) acc) t
         = (count_get acc t + length (of_type t events))%nat.
Proof.
  revert acc. induction events as [|e events IH]; intros acc; cbn [map fold_left].
  - split; [done | split; [done|]]. intros t. unfold of_type. simpl. lia.
  - destruct (IH (count_add acc (type e))) as (IH1 & IH2 & IH3).
    split; [|split].
    + intros H. by apply IH1, count_add_NoDup.
    + intros H. by apply IH2, count_add_positive.
    + intros t. rewrite IH3, count_get_count_add. unfold of_type.
      cbn [List.filter]. destruct (String.eqb (type e) t); simpl; lia.
Qed.

(** X9. The tally of [render_html] has one entry per type that occurs, and
    the number stored for a type is the number of events of that type: a
    pair is in the tally exactly when its number is that count and the
    count is not zero. *)
Theorem counts_tally_the_types (events : list event) :
  NoDup (map fst (counts_of events))
  ∧ ∀ t n, (t, n) ∈ counts_of events
           ↔ n = length (of_type t events) ∧ (0 < n)%nat.
Proof.
  unfold counts_of.
  destruct (counts_fold events []) as (Hnodup & Hpos & Hget).
  specialize (Hnodup (NoDup_nil_2)). specialize (Hpos (@List.Forall_nil _ _)).
  split; [done|]. intros t n. split.
  - intros Hin. split.
    + rewrite <- (count_get_elem_of _ t n Hnodup Hin). by rewrite Hget.
    + rewrite Forall_forall in Hpos. exact (Hpos _ Hin).
  - intros [-> Hlen]. specialize (Hget t). simpl in Hget. rewrite <- Hget.
    apply count_get_present. rewrite Hget. lia.
Qed.

Lemma pill_lt_asym a b : pill_lt a b = true → pill_lt b a = false.
Proof.
  unfold pill_lt. destruct (a.2 =? b.2)%nat eqn:Hab.
  - apply Nat.eqb_eq in Hab. rewrite <- Hab, Nat.eqb_refl. apply string_ltb_asym.
  - rewrite Nat.eqb_sym, Hab. rewrite !Nat.ltb_lt, Nat.ltb_ge. lia.
Qed.

Lemma string_ltb_total a b : String.ltb b a = false → a ≠ b → String.ltb a b = true.
Proof.
  unfold String.ltb. rewrite (String.compare_antisym b a).
  destruct (String.compare a b) eqn:Hc; simpl; try done.
  by apply String.compare_eq_iff in Hc.
Qed.

(** X10. The badges are the entries of the tally, each once, with the more
    frequent type first and, for equal counts, the smaller name first. *)
Theorem badges_by_count_then_name (events : list event) :
  let badges := sorted_by pill_lt (counts_of events) in
  badges ≡ₚ counts_of events
  ∧ ∀ i a b, badges !! i = Some a → badges !! (S i) = Some b →
      (b.2 < a.2)%nat ∨ (a.2 = b.2 ∧ String.ltb a.1 b.1 = true).
Proof.
  intros badges. assert (badges ≡ₚ counts_of events) as Hperm
    by apply sorted_by_Permutation.
  split; [done|]. intros i a b Ha Hb.
  assert (pill_lt b a = false) as Hsorted.
  { eapply (Sorted_adjacent (λ a b, pill_lt b a = false)); [|exact Ha|exact Hb].
    apply (sorted_by_Sorted pill_lt (λ _, True)).
    - intros ?? _ _. apply pill_lt_asym.
    - by apply Forall_forall. }
  assert (a.1 ≠ b.1) as Hne.
  { assert (NoDup (map fst badges)) as Hnodup.
    { rewrite Hperm. unfold counts_of.
      by apply (counts_fold events []), NoDup_nil_2. }
    intros Heq. apply (NoDup_lookup _ i (S i) a.1) in Hnodup; [lia| |].
    - by rewrite list_lookup_fmap, Ha.
    - by rewrite list_lookup_fmap, Hb, Heq. }
  unfold pill_lt in Hsorted. destruct (b.2 =? a.2)%nat eqn:Hab.
  - apply Nat.eqb_eq in Hab. right. split; [done|]. by apply string_ltb_total.
  - apply Nat.eqb_neq in Hab. apply Nat.ltb_ge in Hsorted. left. lia.
Qed.

Lemma group_get_group_add by_type e t :
  group_get (group_add by_type e) t
  = group_get by_type t ++ (if String.eqb (type e) t then [e] else []).
Proof.
  induction by_type as [|[k es] rest IH]; cbn [group_add group_get].
  - by destruct (String.eqb (type e) t).
  - destruct (String.eqb k (type e)) eqn:Hke; cbn [group_get].
    + apply String.eqb_eq in Hke as ->.
      destruct (String.eqb (type e) t); [done | by rewrite app_nil_r].
    + destruct (String.eqb k t) eqn:Hkt; [|exact IH].
      apply String.eqb_eq in Hkt as ->.
      by rewrite String.eqb_sym, Hke, app_nil_r.
Qed.

Lemma group_add_keys by_type e k :
  k ∈ map fst (group_add by_type e) ↔ k = type e ∨ k ∈ map fst by_type.
Proof.
  induction by_type as [|[k' es] rest IH]; cbn [group_add map fst].
  - rewrite list_elem_of_singleton. split; [by left | by intros [?|?%elem_of_nil]].
  - destruct (String.eqb k' (type e)) eqn:Hke; cbn [map fst].
    + apply String.eqb_eq in Hke as ->. rewrite elem_of_cons.
      split; [by right | intros [-> | ?]; [by left | done]].
    + rewrite !elem_of_cons, IH. tauto.
Qed.

Lemma group_add_NoDup by_type e :
  NoDup (map fst by_type) → NoDup (map fst (group_add by_type e)).
Proof.
  induction by_type as [|[k es] rest IH]; cbn [group_add map fst].
  - intros _. apply NoDup_singleton.
  - intros [Hk Hrest]%NoDup_cons.
    destruct (String.eqb k (type e)) eqn:Hke; cbn [map fst].
    + by apply NoDup_cons.
    + apply NoDup_cons. split; [|by apply IH].
      rewrite group_add_keys. intros [-> | ?]; [|done].
      by rewrite String.eqb_refl in Hke.
Qed.

Lemma groups_fold events acc :
  (NoDup (map fst acc) → NoDup (map fst (fold_left group_add events acc)))
  ∧ (∀ k, k ∈ map fst (fold_left group_add events acc)
          ↔ k ∈ map fst acc ∨ ∃ e, e ∈ events ∧ type e = k)
  ∧ ∀ t, group_get (fold_left group_add events acc) t
         = group_get acc t ++ of_type t events.
Proof.
  revert acc. induction events as [|e events IH]; intros acc; cbn [fold_left].
  - split; [done | split].
    + intros k. split; [by left | intros [? | (e & ?%elem_of_nil & _)]; done].
    + intros t. unfold of_type. simpl. by rewrite app_nil_r.
  - destruct (IH (group_add acc e)) as (IH1 & IH2 & IH3).
    split; [|split].
    + intros H. by apply IH1, group_add_NoDup.
    + intros k. rewrite IH2, group_add_keys. split.
      * intros [[-> | ?] | (e' & ? & ?)]; [right | by left | right].
        -- exists e. split; [by left | done].
        -- exists e'. split; [by right | done].
      * intros [? | (e' & [-> | ?]%elem_of_cons & He')].
        -- left. by right.
        -- left. by left.
        -- right. by exists e'.
    + intros t. rewrite IH3, group_get_group_add, <- app_assoc. unfold of_type.
      cbn [List.filter]. by destruct (String.eqb (type e) t).
Qed.

(** X11. The full listing has one section per type that occurs, the
    headings strictly ascending by name, and the group shown under a
    heading is the events of that type in their order in the list. *)
Theorem sections_group_by_type (events : list event) :
  let headings := sorted_by String.ltb (map fst (by_type_of events)) in
  (∀ t, t ∈ headings ↔ ∃ e, e ∈ events ∧ type e = t)
  ∧ (∀ i a b, headings !! i = Some a → headings !! (S i) = Some b →
       String.ltb a b = true)
  ∧ ∀ t, group_get (by_type_of events) t = of_type t events.
Proof.
  intros headings. unfold by_type_of in *.
  destruct (groups_fold events []) as (Hnodup & Hkeys & Hget).
  specialize (Hnodup NoDup_nil_2).
  assert (headings ≡ₚ map fst (fold_left group_add events [])) as Hperm
    by apply sorted_by_Permutation.
  split; [|split].
  - intros t. rewrite Hperm, Hkeys. split; [|by right].
    by intros [?%elem_of_nil | ?].
  - intros i a b Ha Hb. apply string_ltb_total.
    + eapply (Sorted_adjacent (λ a b, String.ltb b a = false)); [|exact Ha|exact Hb].
      apply (sorted_by_Sorted String.ltb (λ _, True)).
      * intros ?? _ _. apply string_ltb_asym.
      * by apply Forall_forall.
    + intros ->. rewrite <- Hperm in Hnodup.
      apply (NoDup_lookup _ i (S i) b) in Hnodup; [lia|done|done].
  - intros t. by rewrite Hget.
Qed.

(** ** Theorems: the page *)

Lemma concat_starts (sep : string) c s rest :
  ∃ t, String.concat sep (String c s :: rest) = String c t.
Proof. destruct rest; simpl; eauto. Qed.

Lemma joined_items_not_empty e events :
  String.eqb (String.concat newline (map li (e :: events))) "" = false.
Proof.
  cbn [map]. unfold li at 1.
  change ("<li>" +:+ ?x) with (String "<" ("li>" +:+ x)).
  by destruct (concat_starts newline "<" ("li>" +:+ esc (summarize_event e) +:+ "</li>")
                 (map li events)) as [t ->].
Qed.

(** X12. The page is the fixed frame around four parts: the escaped
    timestamp, the badges, the headlines and the sections. The headlines
    are the first eight events, or the placeholder item exactly when there
    is no event; the sections list, per heading, the events of that type,
    or are the placeholder paragraph exactly when there is no event. *)
Theorem page_layout (events : list event) (today : string) :
  render_page events today
  = doc_open +:+ css +:+ doc_after_css +:+ esc today +:+ doc_after_today
    +:+ String.concat "" (map (λ kv, pill kv.1 kv.2)
                              (sorted_by pill_lt (counts_of events)))
    +:+ doc_after_pills
    +:+ match events with
        | [] => "<li>No active airport events right now.</li>"
        | _ => String.concat newline (map li (take 8 events))
        end
    +:+ doc_after_items
    +:+ match events with
        | [] => "<p>No active events.</p>"
        | _ => String.concat newline
                 (map (λ typ, section_html typ (of_type typ events))
                      (sorted_by String.ltb (map fst (by_type_of events))))
        end
    +:+ doc_close.
Proof.
  destruct events as [|e events]; [reflexivity|].
  unfold render_page. cbv zeta.
  fold (counts_of (e :: events)). fold (by_type_of (e :: events)).
  change (take 8 (e :: events)) with (e :: take 7 events).
  rewrite joined_items_not_empty.
  destruct (groups_fold (e :: events) []) as (_ & Hkeys & Hget).
  fold (by_type_of (e :: events)) in Hkeys, Hget.
  rewrite (map_ext _ (λ typ, section_html typ (of_type typ (e :: events))))
    by (intros typ; by rewrite Hget).
  destruct (sorted_by String.ltb (map fst (by_type_of (e :: events))))
    as [|h hs] eqn:Hsorted; [|reflexivity].
  assert (type e ∈ sorted_by String.ltb (map fst (by_type_of (e :: events)))) as Hin.
  { rewrite sorted_by_Permutation. apply Hkeys. right. exists e.
    split; [by left | done]. }
  rewrite Hsorted in Hin. by apply elem_of_nil in Hin.
Qed.

(** ** Theorems: what a run does to its surroundings *)

Lemma write_accepted_after html_text dir name w :
  write_accepted dir name w = true →
  write_accepted dir name (after_write html_text dir name w) = true.
Proof.
  unfold write_accepted, after_write. cbn [files dirs denied].
  intros [[_ Hpath]%andb_true_iff Hden]%andb_true_iff. rewrite Hden, andb_true_r.
  apply negb_true_iff, bool_decide_eq_false in Hpath.
  rewrite bool_decide_eq_true_2 by (apply elem_of_union; left; by apply elem_of_singleton).
  cbn [orb andb]. apply negb_true_iff, bool_decide_eq_false.
  rewrite elem_of_union, elem_of_singleton. intros [Heq | Hin]; [|done].
  by apply path_join_ne in Heq.
Qed.

Section effects.
Variable requests_get : string → nat → result response.
Variable xmltodict_parse : string → result pyval.
Variable datetime : Type.
Variable utc_now : datetime.
Variable isoformat : datetime → string.
Variable local_strftime : datetime → string → string.

Lemma fetch_xml_uniform url timeout :
  ∃ xml_text errs,
    (length errs ≤ 1)%nat
    ∧ (∀ t, xml_text = Some t
            ↔ ∃ r, requests_get url timeout = Ok r ∧ status_ok r = true ∧ t = text r)
    ∧ (xml_text = None →
         ∃ msg, errs = ["ERROR fetching " +:+ url +:+ ": " +:+ msg])
    ∧ ∀ w, ∃ w',
        fetch_xml requests_get url timeout w = Ok (xml_text, w')
        ∧ files w' = files w ∧ dirs w' = dirs w ∧ stdout w' = stdout w
        ∧ stderr w' = stderr w ++ errs ∧ denied w' = denied w.
Proof.
  unfold fetch_xml. destruct (requests_get url timeout) as [r|e] eqn:Hget.
  - cbn [mbind result_bind]. destruct (status_ok r) eqn:Hs.
    + rewrite (raise_for_status_ok _ _ Hs). cbn [try_except].
      destruct (_ && _).
      * exists (Some (text r)), ["Warning: response did not look like XML; continuing anyway."].
        split; [simpl; lia|]. split; [|split; [done|]].
        -- intros t. split; [intros [= <-]; by exists r|].
           by intros (r' & [= <-] & _ & ->).
        -- intros w. eexists. split; [reflexivity|]. by repeat split.
      * exists (Some (text r)), [].
        split; [simpl; lia|]. split; [|split; [done|]].
        -- intros t. split; [intros [= <-]; by exists r|].
           by intros (r' & [= <-] & _ & ->).
        -- intros w. eexists. split; [reflexivity|]. rewrite app_nil_r.
           by repeat split.
    + destruct (raise_for_status_bad url r Hs) as [e He]. rewrite He.
      cbn [try_except]. exists None, ["ERROR fetching " +:+ url +:+ ": " +:+ exn_msg e].
      split; [simpl; lia|]. split; [|split; [by eexists|]].
      * intros t. split; [done|]. intros (r' & [= <-] & Hs' & _). congruence.
      * intros w. eexists. split; [reflexivity|]. by repeat split.
  - cbn [mbind result_bind try_except].
    exists None, ["ERROR fetching " +:+ url +:+ ": " +:+ exn_msg e].
    split; [simpl; lia|]. split; [|split; [by eexists|]].
    * intros t. split; [done|]. by intros (r' & [=] & _).
    * intros w. eexists. split; [reflexivity|]. by repeat split.
Qed.

(** What a run whose write is accepted does is the same from every
    state: the page, the line it prints and the diagnostics are fixed by
    the surroundings. *)
Lemma main_uniform :
  ∃ page line errs,
    (length errs ≤ 2)%nat
    ∧ ∀ w, write_accepted "docs" "index.html" w = true →
        ∃ w',
          main requests_get xmltodict_parse datetime utc_now isoformat local_strftime w
          = Ok w'
          ∧ files w' = <["docs/index.html" := page]> (files w)
          ∧ dirs w' = {["docs"]} ∪ dirs w
          ∧ stdout w' = stdout w ++ [line]
          ∧ stderr w' = stderr w ++ errs
          ∧ denied w' = denied w.
Proof.
  destruct (fetch_xml_uniform NAS_XML_URL 30)
    as (xml_text & errs & Hlen & _ & _ & Hfetch).
  unfold main. destruct (no_text xml_text) eqn:Hno.
  - exists (fallback_page datetime isoformat utc_now), "Wrote fallback HTML.", errs.
    split; [lia|]. intros w Hacc.
    destruct (Hfetch w) as (w1 & -> & Hfiles & Hdirs & Hout & Herr & Hden).
    cbn [mbind result_bind fst snd]. rewrite Hno.
    rewrite write_html_accepted
      by by rewrite (write_accepted_same _ _ _ _ Hfiles Hdirs Hden).
    eexists. split; [reflexivity|].
    cbn [files dirs stdout stderr denied print_out after_write].
    by rewrite Hfiles, Hdirs, Hout, Herr, Hden.
  - destruct (parse_events_from_xml xmltodict_parse (default "" xml_text))
      as [events|e] eqn:Hparse.
    + exists (render_html datetime local_strftime events utc_now),
        ("Generated docs/index.html with " +:+ pretty (length events) +:+ " events."),
        errs.
      split; [lia|]. intros w Hacc.
      destruct (Hfetch w) as (w1 & -> & Hfiles & Hdirs & Hout & Herr & Hden).
      cbn [mbind result_bind fst snd]. rewrite Hno, Hparse.
      cbn [mbind result_bind try_except fst snd].
      rewrite write_html_accepted
        by by rewrite (write_accepted_same _ _ _ _ Hfiles Hdirs Hden).
      eexists. split; [reflexivity|].
      cbn [files dirs stdout stderr denied print_out after_write].
      by rewrite Hfiles, Hdirs, Hout, Herr, Hden.
    + exists (render_html datetime local_strftime [] utc_now),
        ("Generated docs/index.html with " +:+ pretty (length (@nil event)) +:+ " events."),
        (errs ++ ["ERROR parsing XML: " +:+ exn_msg e]).
      split; [rewrite length_app; simpl; lia|]. intros w Hacc.
      destruct (Hfetch w) as (w1 & -> & Hfiles & Hdirs & Hout & Herr & Hden).
      cbn [mbind result_bind fst snd]. rewrite Hno, Hparse.
      cbn [mbind result_bind try_except fst snd].
      rewrite write_html_accepted
        by (etrans; [apply write_accepted_same; [exact Hfiles | exact Hdirs | exact Hden]
                    | exact Hacc]).
      eexists. split; [reflexivity|].
      cbn [files dirs stdout stderr denied print_out print_err after_write].
      by rewrite Hfiles, Hdirs, Hout, Herr, Hden, app_assoc.
Qed.

End effects.

(** X13. [fetch_xml] never raises, for any address and any answer of the
    server. It returns the text of the answer exactly when the request
    returns with a status that is no error; otherwise it returns nothing
    and reports one line that begins with ERROR fetching and the address.
    It touches no file, no directory and not the standard output, and adds
    at most one line to the diagnostics, the same whatever the state. *)
Theorem fetch_xml_never_raises
    (requests_get : string → nat → result response) (url : string) (timeout : nat) :
  ∃ xml_text errs,
    (length errs ≤ 1)%nat
    ∧ (∀ t, xml_text = Some t
            ↔ ∃ r, requests_get url timeout = Ok r ∧ status_ok r = true ∧ t = text r)
    ∧ (xml_text = None →
         ∃ msg, errs = ["ERROR fetching " +:+ url +:+ ": " +:+ msg])
    ∧ ∀ w, ∃ w',
        fetch_xml requests_get url timeout w = Ok (xml_text, w')
        ∧ files w' = files w ∧ dirs w' = dirs w ∧ stdout w' = stdout w
        ∧ stderr w' = stderr w ++ errs ∧ denied w' = denied w.
Proof. apply fetch_xml_uniform. Qed.

(** X14. A run whose write the file system accepts ends without an
    exception, leaves every file other than docs/index.html as it was,
    removes no directory and adds only docs, prints exactly one line on
    the standard output and only adds to the diagnostics, at most two
    lines. *)
Theorem main_changes_one_file
    (requests_get : string → nat → result response)
    (xmltodict_parse : string → result pyval)
    (datetime : Type) (utc_now : datetime) (isoformat : datetime → string)
    (local_strftime : datetime → string → string) (w : world) :
  write_accepted "docs" "index.html" w = true →
  ∃ w' line errs,
    main requests_get xmltodict_parse datetime utc_now isoformat local_strftime w = Ok w'
    ∧ (∀ path, path ≠ "docs/index.html" → files w' !! path = files w !! path)
    ∧ (∀ d, d ∈ dirs w' ↔ d = "docs" ∨ d ∈ dirs w)
    ∧ stdout w' = stdout w ++ [line]
    ∧ stderr w' = stderr w ++ errs ∧ (length errs ≤ 2)%nat.
Proof.
  intros Hacc.
  destruct (main_uniform requests_get xmltodict_parse datetime utc_now isoformat
              local_strftime) as (page & line & errs & Hlen & Hmain).
  destruct (Hmain w Hacc) as (w' & Hrun & Hfiles & Hdirs & Hout & Herr & _).
  exists w', line, errs. split; [done|]. split; [|split; [|done]].
  - intros path Hpath. rewrite Hfiles. by apply lookup_insert_ne.
  - intros d. rewrite Hdirs, elem_of_union, elem_of_singleton. done.
Qed.

Lemma main_changes_one_file_witness :
  ∃ w' line errs,
    main (sample_get sample_xml) sample_parse unit tt
      (λ _, "2026-01-01T00:00:00+00:00") (λ _ _, "Thursday") readme_only = Ok w'
    ∧ (∀ path, path ≠ "docs/index.html" → files w' !! path = files readme_only !! path)
    ∧ (∀ d, d ∈ dirs w' ↔ d = "docs" ∨ d ∈ dirs readme_only)
    ∧ stdout w' = stdout readme_only ++ [line]
    ∧ stderr w' = stderr readme_only ++ errs ∧ (length errs ≤ 2)%nat.
Proof.
  apply (main_changes_one_file (sample_get sample_xml) sample_parse unit tt
           (λ _, "2026-01-01T00:00:00+00:00") (λ _ _, "Thursday") readme_only).
  vm_compute. reflexivity.
Defined.

(** X15. The page of an earlier run leaves no trace: when the file system
    accepts the write, two runs in a row, under any two surroundings, both
    end without an exception, and the files and the directories after
    them are those the second run alone would have left. *)
Theorem rerun_replaces_page
    (get1 get2 : string → nat → result response)
    (parse1 parse2 : string → result pyval)
    (datetime : Type) (now1 now2 : datetime) (isoformat : datetime → string)
    (local_strftime : datetime → string → string) (w : world) :
  write_accepted "docs" "index.html" w = true →
  ∃ w1 w2 w2',
    main get1 parse1 datetime now1 isoformat local_strftime w = Ok w1
    ∧ main get2 parse2 datetime now2 isoformat local_strftime w1 = Ok w2
    ∧ main get2 parse2 datetime now2 isoformat local_strftime w = Ok w2'
    ∧ files w2 = files w2' ∧ dirs w2 = dirs w2'.
Proof.
  intros Hacc.
  destruct (main_uniform get1 parse1 datetime now1 isoformat local_strftime)
    as (page1 & line1 & errs1 & _ & Hmain1).
  destruct (main_uniform get2 parse2 datetime now2 isoformat local_strftime)
    as (page2 & line2 & errs2 & _ & Hmain2).
  destruct (Hmain1 w Hacc) as (w1 & Hrun1 & Hfiles1 & Hdirs1 & _ & _ & Hden1).
  assert (write_accepted "docs" "index.html" w1 = true) as Hacc1.
  { etrans; [|exact (write_accepted_after page1 _ _ _ Hacc)].
    apply write_accepted_same; [exact Hfiles1 | exact Hdirs1 | exact Hden1]. }
  destruct (Hmain2 w1 Hacc1) as (w2 & Hrun2 & Hfiles2 & Hdirs2 & _).
  destruct (Hmain2 w Hacc) as (w2' & Hrun2' & Hfiles2' & Hdirs2' & _).
  exists w1, w2, w2'. repeat split; try done.
  - by rewrite Hfiles2, Hfiles1, Hfiles2', insert_insert_eq.
  - rewrite Hdirs2, Hdirs1, Hdirs2'. apply set_eq. intros d.
    rewrite !elem_of_union, !elem_of_singleton. tauto.
Qed.

Lemma rerun_replaces_page_witness :
  ∃ w1 w2 w2',
    main (λ _ _, Raise (RequestException "connection refused")) sample_parse bool true
      (λ _, "2026-01-01T00:00:00+00:00")
      (λ day _, if day : bool then "Thursday" else "Friday") readme_only = Ok w1
    ∧ main (sample_get sample_xml) sample_parse bool false
        (λ _, "2026-01-01T00:00:00+00:00")
        (λ day _, if day : bool then "Thursday" else "Friday") w1 = Ok w2
    ∧ main (sample_get sample_xml) sample_parse bool false
        (λ _, "2026-01-01T00:00:00+00:00")
        (λ day _, if day : bool then "Thursday" else "Friday") readme_only = Ok w2'
    ∧ files w2 = files w2' ∧ dirs w2 = dirs w2'.
Proof.
  apply (rerun_replaces_page (λ _ _, Raise (RequestException "connection refused"))
           (sample_get sample_xml) sample_parse sample_parse bool true false
           (λ _, "2026-01-01T00:00:00+00:00")
           (λ day _, if day : bool then "Thursday" else "Friday") readme_only).
  vm_compute. reflexivity.
Defined.

(** X20. A run ends with an exception exactly when the file system does
    not accept the write of docs/index.html, whatever the server, the
    parser and the clock do; the exception is then an [OSError]. *)
Theorem main_raises_iff
    (requests_get : string → nat → result response)
    (xmltodict_parse : string → result pyval)
    (datetime : Type) (utc_now : datetime) (isoformat : datetime → string)
    (local_strftime : datetime → string → string) (w : world) :
  (∀ e, main requests_get xmltodict_parse datetime utc_now isoformat local_strftime w
        = Raise e → ∃ msg, e = OSError msg)
  ∧ ((∃ e, main requests_get xmltodict_parse datetime utc_now isoformat local_strftime w
           = Raise e)
     ↔ write_accepted "docs" "index.html" w = false).
Proof.
  destruct (write_accepted "docs" "index.html" w) eqn:Hacc.
  - destruct (main_uniform requests_get xmltodict_parse datetime utc_now isoformat
                local_strftime) as (page & line & errs & _ & Hmain).
    destruct (Hmain w Hacc) as (w' & -> & _).
    split; [done|]. split; [by intros [e ?] | done].
  - destruct (main_write_refused requests_get datetime utc_now isoformat local_strftime
                xmltodict_parse w Hacc) as [msg ->].
    split; [intros e [= <-]; by eexists|]. split; [done | by eexists].
Qed.

(** ** Theorems: the list [parse_events_from_xml] returns *)

Lemma sorted_by_fixed {A} (lt : A → A → bool) l :
  Sorted (λ a b, lt b a = false) l → sorted_by lt l = l.
Proof.
  induction 1 as [|x l Hsorted IH Hhd]; [done|].
  unfold sorted_by in *. cbn [foldr]. rewrite IH.
  destruct Hhd as [|y l Hy]; [done|]. cbn [insert_by]. by rewrite Hy.
Qed.

Lemma kept_of_fixed seen events :
  NoDup (map (λ e, hash_fields (key_fields e)) events) →
  (∀ e, e ∈ events → hash_fields (key_fields e) ∉ seen) →
  kept_of seen events = events.
Proof.
  revert seen. induction events as [|e rest IH]; intros seen; [done|].
  cbn [map kept_of]. intros [Hnew Hrest]%NoDup_cons Hseen.
  destruct (decide (hash_fields (key_fields e) ∈ seen)) as [Hin | _].
  - destruct (Hseen e); [by left | done].
  - f_equal. apply IH; [done|]. intros e' He'.
    rewrite elem_of_union, elem_of_singleton. intros [Heq | Hin].
    + apply Hnew. rewrite <- Heq. apply list_elem_of_fmap. by exists e'.
    + by apply (Hseen e'); [right|].
Qed.

Lemma parse_output_parts data out :
  parse_events data = Ok out →
  ∃ events,
    extract_events data = Ok events
    ∧ Forall (λ e, hashable e = true) events
    ∧ out = sorted_by event_ltb (kept_of ∅ events)
    ∧ Forall text_airport (kept_of ∅ events).
Proof.
  intros (events & deduped & Hext & Hd & Hsort)%parse_events_stages.
  pose proof (dedup_Ok_hashable _ _ Hd) as Hhash.
  pose proof (deduped_text_airport _ _ _ Hext Hd) as Htext.
  rewrite (dedup_kept _ Hhash) in Hd. injection Hd as <-.
  rewrite (sort_events_text _ Htext) in Hsort. injection Hsort as <-.
  by exists events.
Qed.

(** X16. The list [parse_events_from_xml] returns holds no two records
    with the same key (type, airport, reason-or-empty-string), also after
    the sort, and it is in its final form: de-duplicating it again and
    sorting it again both return it unchanged. *)
Theorem parse_output_is_final (xmltodict_parse : string → result pyval)
    (xml_text : string) (out : list event) :
  parse_events_from_xml xmltodict_parse xml_text = Ok out →
  NoDup (map key_fields out) ∧ dedup out = Ok out ∧ sort_events out = Ok out.
Proof.
  unfold parse_events_from_xml.
  destruct (xmltodict_parse xml_text) as [data|] eqn:Hparse; simpl; [|done].
  intros (events & Hext & Hhash & -> & Htext)%parse_output_parts.
  set (deduped := kept_of ∅ events) in *.
  assert (sorted_by event_ltb deduped ≡ₚ deduped) as Hperm
    by apply sorted_by_Permutation.
  assert (NoDup (map (λ e, hash_fields (key_fields e)) (sorted_by event_ltb deduped)))
    as Hnodup by (rewrite Hperm; apply kept_of_NoDup).
  assert (Forall text_airport (sorted_by event_ltb deduped)) as Htext'
    by by rewrite Hperm.
  split; [|split].
  - rewrite <- (map_map key_fields hash_fields) in Hnodup.
    by apply NoDup_fmap_1 in Hnodup.
  - rewrite dedup_kept.
    + f_equal. apply kept_of_fixed; [done|]. intros e _. apply not_elem_of_empty.
    + rewrite Hperm. apply Forall_forall. intros e He.
      rewrite Forall_forall in Hhash. apply Hhash.
      eapply elem_of_sublist; [done | apply kept_of_sublist].
  - rewrite (sort_events_text _ Htext'). f_equal. apply sorted_by_fixed.
    apply (sorted_by_Sorted event_ltb text_airport); [|done].
    intros a b. apply event_ltb_asym.
Qed.

Lemma parse_output_is_final_witness :
  NoDup (map key_fields sample_events)
  ∧ dedup sample_events = Ok sample_events
  ∧ sort_events sample_events = Ok sample_events.
Proof.
  apply (parse_output_is_final sample_parse sample_xml sample_events).
  vm_compute. reflexivity.
Defined.

Lemma std_type_of_not_empty name t : std_type_of name = Ok t → t ≠ "".
Proof.
  intros Hstd. destruct (std_type_of_cases _ _ Hstd) as [Hv | [-> | [-> Hnone]]].
  - intros ->. simpl in Hv.
    repeat (apply elem_of_cons in Hv as [Heq|Hv]; [discriminate|]).
    by apply elem_of_nil in Hv.
  - done.
  - intros ->. discriminate.
Qed.

Lemma fold_digits_nonneg l acc :
  (0 ≤ acc)%Z → (0 ≤ fold_left (λ acc c, 10 * acc + digit_value c) l acc)%Z.
Proof.
  revert acc. induction l as [|c l IH]; intros acc Hacc; [done|].
  cbn [fold_left]. apply IH. unfold digit_value. lia.
Qed.

Lemma int_of_digits_nonneg s : (0 ≤ int_of_digits s)%Z.
Proof. unfold int_of_digits. by apply fold_digits_nonneg. Qed.

Lemma to_int_safe_nonneg v n : to_int_safe v = Some n → (0 ≤ n)%Z.
Proof.
  unfold to_int_safe. destruct (negb (truthy v)); [done|].
  destruct (re_search _ _ _); [|done]. intros [= <-]. apply int_of_digits_nonneg.
Qed.

Lemma friendly_reason_shape raw :
  friendly_reason raw = PNone
  ∨ (∃ r, friendly_reason raw = PStr r ∧ r ≠ "")
  ∨ (friendly_reason raw = raw ∧ unhashable_name raw = true).
Proof.
  unfold friendly_reason, py_or, unhashable_name.
  destruct (truthy raw) eqn:Hraw; [|by left]. cbn [negb].
  destruct (truthy (PStr (normalize (py_str raw)))) eqn:Htxt.
  - right. left. eexists. split; [done|]. by apply truthy_PStr.
  - destruct raw as [|r| |]; [done| | |].
    + right. left. exists r. split; [done|]. by apply truthy_PStr.
    + right. right. done.
    + right. right. done.
Qed.

(** X17. Every record [parse_events_from_xml] returns has a type that is
    not empty, an airport that is a text and not empty, a reason that is
    [None] or a text that is not empty, and a delay that is absent or not
    negative. *)
Theorem parse_output_fields (xmltodict_parse : string → result pyval)
    (xml_text : string) (out : list event) (e : event) :
  parse_events_from_xml xmltodict_parse xml_text = Ok out →
  e ∈ out →
  type e ≠ ""
  ∧ (∃ a, airport e = PStr a ∧ a ≠ "")
  ∧ (reason e = PNone ∨ ∃ r, reason e = PStr r ∧ r ≠ "")
  ∧ ∀ n, avg_delay e = Some n → (0 ≤ n)%Z.
Proof.
  unfold parse_events_from_xml.
  destruct (xmltodict_parse xml_text) as [data|] eqn:Hparse; simpl; [|done].
  intros (events & Hext & Hhash & -> & Htext)%parse_output_parts He.
  rewrite sorted_by_Permutation in He.
  assert (e ∈ events) as Hin
    by (eapply elem_of_sublist; [done | apply kept_of_sublist]).
  destruct (extract_events_origin _ _ _ Hext Hin) as (dt_item & ap & _ & Hstd & Hrec).
  rewrite Forall_forall in Hhash, Htext.
  specialize (Hhash e Hin). destruct (Htext e He) as [a Ha].
  split; [by eapply std_type_of_not_empty|]. split; [|split].
  - exists a. split; [done|]. apply truthy_PStr. rewrite <- Ha, Hrec.
    apply make_record_airport_truthy.
  - assert (reason e = friendly_reason (dict_get ap "Reason")) as Hreason
      by by rewrite Hrec.
    destruct (friendly_reason_shape (dict_get ap "Reason"))
      as [Hnone | [(r & Hr & Hne) | [Hraw Hbad]]].
    + left. by rewrite Hreason.
    + right. exists r. by rewrite Hreason.
    + exfalso. unfold hashable in Hhash. apply andb_true_iff in Hhash as [_ Hscalar].
      rewrite Hreason, Hraw in Hscalar. unfold unhashable_name in Hbad.
      apply andb_true_iff in Hbad as [Htruthy Hbad].
      unfold py_or in Hscalar. rewrite Htruthy in Hscalar.
      by rewrite Hscalar in Hbad.
  - intros n Hn. rewrite Hrec in Hn. by apply to_int_safe_nonneg in Hn.
Qed.

Lemma parse_output_fields_witness :
  type (sample_event "Foo" "BOS" 45 PNone) ≠ ""
  ∧ (∃ a, airport (sample_event "Foo" "BOS" 45 PNone) = PStr a ∧ a ≠ "")
  ∧ (reason (sample_event "Foo" "BOS" 45 PNone) = PNone
     ∨ ∃ r, reason (sample_event "Foo" "BOS" 45 PNone) = PStr r ∧ r ≠ "")
  ∧ ∀ n, avg_delay (sample_event "Foo" "BOS" 45 PNone) = Some n → (0 ≤ n)%Z.
Proof.
  apply (parse_output_fields sample_parse sample_xml sample_events).
  - vm_compute. reflexivity.
  - unfold sample_events. repeat constructor.
Defined.

(** ** Theorems: blocks without records, and the errors of the parse *)

Lemma for_each_all_empty {A B} (f : A → result (list B)) l :
  (∀ x, x ∈ l → f x = Ok []) → for_each f l = Ok [].
Proof.
  induction l as [|x l IH]; intros Hall; [done|]. cbn [for_each].
  rewrite (Hall x) by by left. cbn [mbind result_bind].
  rewrite IH; [done|]. intros y Hy. apply Hall. by right.
Qed.








(** X18. A tree whose delay-type blocks are all something other than a
    mapping, and so also a tree without any such block, gives the empty
    list of events, without an error. *)
Theorem blocks_without_mapping_are_skipped (xmltodict_parse : string → result pyval)
    (xml_text : string) (data : pyval) :
  xmltodict_parse xml_text = Ok data →
  (∀ dt_item items, delay_type_item data dt_item → dt_item ≠ PDict items) →
  parse_events_from_xml xmltodict_parse xml_text = Ok [].
Proof.
  intros Hparse Hblocks. unfold parse_events_from_xml. rewrite Hparse.
  cbn [mbind result_bind]. unfold parse_events.
  assert (extract_events data = Ok []) as ->; [|reflexivity].
  unfold extract_events. apply for_each_all_empty.
  intros dt Hdt%find_all_key_elem_of. apply for_each_all_empty.
  intros dt_item Hitem.
  assert (delay_type_item data dt_item) as Hblock by by exists dt.
  destruct dt_item as [|s|items|elems]; try reflexivity.
  by destruct (Hblocks _ items Hblock).
Qed.

Lemma blocks_without_mapping_are_skipped_witness :
  parse_events_from_xml
    (λ _, Ok (PDict [("Status", PDict [("Delay_type", PList [PStr "none"; PNone])])]))
    "<Status><Delay_type>none</Delay_type><Delay_type/></Status>"
  = Ok [].
Proof.
  apply (blocks_without_mapping_are_skipped _ _
           (PDict [("Status", PDict [("Delay_type", PList [PStr "none"; PNone])])])).
  - reflexivity.
  - intros dt_item items (dt & Hdt%find_all_key_elem_of & Hitem) ->.
    simpl in Hdt. apply list_elem_of_singleton in Hdt as ->.
    simpl in Hitem.
    repeat (apply elem_of_cons in Hitem as [Heq|Hitem]; [discriminate|]).
    by apply elem_of_nil in Hitem.
Defined.

